(** * Rockpool: graph mapping (design-rule checks, module conversion) and the
      functional module API

    The development follows the two notebooks of the documentation:
    - the graph-mapping notebook (GraphModule subclassing, [_convert_from],
      the Xylo design rules and [check_drc]);
    - [docs/in-depth/api-functional.ipynb] (functional evolution,
      [set_attributes], [reset_state], [tree_flatten] / [tree_unflatten]).

    Python objects live in a heap and are named by their identity; functions
    that can raise return a [Result]; functions with side effects run in a
    state-and-exception monad over the heap and a log of the calls made. *)

From stdpp Require Import gmap strings list fin_maps pretty.
From Stdlib Require Import QArith Qround Lqa.

Set Warnings "-register-all".

Local Open Scope string_scope.
Local Open Scope list_scope.
Local Open Scope Z_scope.

(** ** Python values, exceptions and results *)

Module Py.

(** The values that occur as exception arguments in the notebooks. *)
Inductive PyVal :=
| PyStr (s : string)
| PyInt (z : Z)
| PyNone.

(** [f"{msg}"]: a [str] formats as itself, an [int] in decimal. *)
Definition py_format (v : PyVal) : string :=
  match v with
  | PyStr s => s
  | PyInt z => pretty z
  | PyNone => "None"
  end.

(** ["".join([f"{msg}" for msg in args])] *)
Definition join_args (args : list PyVal) : string :=
  foldr (λ v acc, py_format v +:+ acc) "" args.

(** The newline of ["\n"]. *)
Definition nl : string := String (Ascii.ascii_of_nat 10) EmptyString.

(** Exception classes.  [DRCError] is declared in the notebook as
    [class DRCError(ValueError)]; [UserError] leaves the hierarchy open for
    further subclasses. *)
Inductive ExcClass :=
| Exception
| ValueError
| DRCError
| AttributeError
| SystemError
| UserError (nm : string) (base : ExcClass).

#[global] Instance ExcClass_eq_dec : EqDecision ExcClass.
Proof. solve_decision. Defined.

Definition exc_base (c : ExcClass) : option ExcClass :=
  match c with
  | Exception => None
  | ValueError => Some Exception
  | DRCError => Some ValueError
  | AttributeError => Some Exception
  | SystemError => Some Exception
  | UserError _ b => Some b
  end.

(** [issubclass(c, target)] along the single-inheritance chain. *)
Fixpoint issubclass_exc (c target : ExcClass) : bool :=
  bool_decide (c = target) ||
  match c with
  | Exception => false
  | ValueError | AttributeError | SystemError => bool_decide (Exception = target)
  | DRCError => bool_decide (ValueError = target) || bool_decide (Exception = target)
  | UserError _ b => issubclass_exc b target
  end.

Record PyExc := mkExc { exc_class : ExcClass; exc_args : list PyVal }.

(** [isinstance(e, target)] for an exception object. *)
Definition isinstance_exc (e : PyExc) (target : ExcClass) : bool :=
  issubclass_exc (exc_class e) target.

(** The outcome of a Python call: a value, or a raised exception. *)
Inductive Result (A : Type) :=
| Return (a : A)
| Raise (e : PyExc).
Arguments Return {A} a.
Arguments Raise {A} e.

#[global] Instance Result_ret : MRet Result := λ A a, Return a.
#[global] Instance Result_bind : MBind Result := λ A B f r,
  match r with
  | Return a => f a
  | Raise e => Raise e
  end.

(** [for x in l: body(x)] where the body may raise. *)
Fixpoint for_each {A : Type} (l : list A) (body : A → Result unit) : Result unit :=
  match l with
  | [] => Return tt
  | x :: l' =>
      match body x with
      | Return _ => for_each l' body
      | Raise e => Raise e
      end
  end.

End Py.
Export Py.

(** ** The graph: classes, nodes, modules and the heap *)

Module Graph.

(** Object identities ([id(obj)]). *)
Abbreviation ref := nat.

(** The classes of graph modules named in the notebook.  [GraphModule],
    [GenericNeurons], [LinearWeights] and [LIFNeuronWithSynsRealValue] come
    from [rockpool.graph]; [MyGraphModule(rg.GraphModule)] and
    [MyNeurons(rg.GenericNeurons)] are declared in the notebook.  [UserClass]
    stands for any further subclass. *)
Inductive PyClass :=
| GraphModule
| GenericNeurons
| LinearWeights
| LIFNeuronWithSynsRealValue
| MyGraphModule
| MyNeurons
| UserClass (nm : string) (base : PyClass).

#[global] Instance PyClass_eq_dec : EqDecision PyClass.
Proof. solve_decision. Defined.

(** [cls.__name__] *)
Definition cls_name (c : PyClass) : string :=
  match c with
  | GraphModule => "GraphModule"
  | GenericNeurons => "GenericNeurons"
  | LinearWeights => "LinearWeights"
  | LIFNeuronWithSynsRealValue => "LIFNeuronWithSynsRealValue"
  | MyGraphModule => "MyGraphModule"
  | MyNeurons => "MyNeurons"
  | UserClass nm _ => nm
  end.

(** [issubclass(c, target)]. *)
Fixpoint issubclass (c target : PyClass) : bool :=
  bool_decide (c = target) ||
  match c with
  | GraphModule => false
  | GenericNeurons | LinearWeights | MyGraphModule =>
      bool_decide (GraphModule = target)
  | LIFNeuronWithSynsRealValue | MyNeurons =>
      bool_decide (GenericNeurons = target) || bool_decide (GraphModule = target)
  | UserClass _ b => issubclass b target
  end.

(** The dataclass fields read by the notebook besides the four of
    [GraphModule]: [threshold] and [dt] of a real-valued LIF neuron,
    [thresholds] and [dt] of [MyNeurons].  Finite floats are rationals. *)
Inductive ModFields :=
| PlainFields
| LIFFields (threshold : list Q) (dt : option Q)
| NeuronFields (thresholds : list Z) (dt : Q).

(** A [GraphNode] holds its source and sink modules. *)
Record GraphNode := mkNode {
  source_modules : list ref;
  sink_modules : list ref;
}.

(** A [GraphModule] object: its class ([type(mod)]), its ordered input and
    output nodes, its name and the fields of its subclass. *)
Record GraphModuleObj := mkModule {
  mod_class : PyClass;
  input_nodes : list ref;
  output_nodes : list ref;
  name : string;
  fields : ModFields;
}.

Record Heap := mkHeap {
  nodes : gmap ref GraphNode;
  modules : gmap ref GraphModuleObj;
}.

(** Dereferencing.  Python has no dangling references; on a heap that lacks
    the object the model raises [SystemError]. *)
Definition dangling {A : Type} : Result A :=
  Raise (mkExc SystemError [PyStr "dangling reference"]).

Definition get_node (h : Heap) (n : ref) : Result GraphNode :=
  match nodes h !! n with
  | Some nd => Return nd
  | None => dangling
  end.

Definition get_module (h : Heap) (m : ref) : Result GraphModuleObj :=
  match modules h !! m with
  | Some o => Return o
  | None => dangling
  end.

(** [isinstance(mod, cls)] *)
Definition isinstance (h : Heap) (m : ref) (cls : PyClass) : Result bool :=
  o ← get_module h m;
  mret (issubclass (mod_class o) cls).

(** ** The design rules of the notebook *)

(** A design rule is a named function over a graph
    ([Callable[[rg.GraphModule], None]]): it reads the graph, and returns
    [None] or raises.  [dr_name] is its [__name__]. *)
Record DesignRule := mkRule {
  dr_name : string;
  dr_check : Heap → ref → Result unit;
}.

Section XyloRules.
(** [GraphNode.__repr__] and [GraphModule.__repr__], used by the f-strings
    of the rules, are defined in [rockpool.graph]. *)
Variable repr_node : Heap → ref → string.
Variable repr_module : Heap → ref → string.

Definition output_nodes_have_neurons_as_source (h : Heap) (graph : ref)
    : Result unit :=
  g ← get_module h graph;
  for_each (output_nodes g) (λ n,
    nd ← get_node h n;
    for_each (source_modules nd) (λ s,
      b ← isinstance h s GenericNeurons;
      if negb b then
        Raise (mkExc DRCError [PyStr (
          "All network outputs must be directly from neurons." +:+ nl +:+
          "A network output node " +:+ repr_node h n +:+
          " has a source " +:+ repr_module h s +:+
          " which is not a neuron.")])
      else Return tt)).

Definition first_module_is_a_weight (h : Heap) (graph : ref) : Result unit :=
  g ← get_module h graph;
  for_each (input_nodes g) (λ inp,
    nd ← get_node h inp;
    for_each (sink_modules nd) (λ sink,
      b ← isinstance h sink LinearWeights;
      if negb b then
        Raise (mkExc DRCError [PyStr (
          "The network input must go first through a weight." +:+ nl +:+
          "A network input node " +:+ repr_node h inp +:+
          " has a sink module " +:+ repr_module h sink +:+
          " which is not a LinearWeight.")])
      else Return tt)).

Definition le_16_input_channels (h : Heap) (graph : ref) : Result unit :=
  g ← get_module h graph;
  if decide (16 < length (input_nodes g))%nat then
    Raise (mkExc DRCError [PyStr (
      "Xylo only supports up to 16 input channels. The network requires " +:+
      pretty (length (input_nodes g)) +:+ " input channels.")])
  else Return tt.

Definition xylo_drc : list DesignRule :=
  [ mkRule "output_nodes_have_neurons_as_source"
      output_nodes_have_neurons_as_source;
    mkRule "first_module_is_a_weight" first_module_is_a_weight;
    mkRule "le_16_input_channels" le_16_input_channels ].
End XyloRules.

(** ** Effects: the heap and the log of calls *)

(** The calls that the log records: a design rule applied to a graph, the
    factory of a class, and [rg.replace_module]. *)
Inductive Event :=
| Call_rule (nm : string) (graph : ref)
| Call_factory (cls : PyClass) (size_in size_out : nat) (nm : string)
    (thresholds : list Z) (dt : Q)
| Call_replace_module (target replacement : ref).

Record World := mkWorld {
  heap : Heap;
  calls : list Event;
}.

Definition M (A : Type) : Type := World → Result A * World.

Definition ret {A : Type} (a : A) : M A := λ w, (Return a, w).
Definition raise {A : Type} (e : PyExc) : M A := λ w, (Raise e, w).
Definition bind {A B : Type} (m : M A) (k : A → M B) : M B :=
  λ w, match m w with
       | (Return a, w') => k a w'
       | (Raise e, w') => (Raise e, w')
       end.
Definition log (ev : Event) : M unit :=
  λ w, (Return tt, mkWorld (heap w) (calls w ++ [ev])).
Definition get_heap : M Heap := λ w, (Return (heap w), w).
Definition lift {A : Type} (r : Result A) : M A := λ w, (r, w).

Declare Scope py_scope.
Delimit Scope py_scope with py.
Notation "'let*' x := m 'in' k" := (bind m (λ x, k))
  (at level 10, x name, m at level 100, k at level 200) : py_scope.
Notation "m ;;; k" := (bind m (λ _, k))
  (at level 100, k at level 200, right associativity) : py_scope.
Local Open Scope py_scope.

(** [try: body  except cls as e: handler(e)] *)
Definition try_except {A : Type} (body : M A) (cls : ExcClass)
    (handler : PyExc → M A) : M A :=
  λ w, match body w with
       | (Raise e, w') =>
           if isinstance_exc e cls then handler e w' else (Raise e, w')
       | ok => ok
       end.

(** [dr(graph)]: the call is logged, the rule reads the graph. *)
Definition call_rule (dr : DesignRule) (graph : ref) : M unit :=
  log (Call_rule (dr_name dr) graph) ;;;
  let* h := get_heap in
  lift (dr_check dr h graph).

(** The message built by [check_drc] for rule [dr] and violation [e]. *)
Definition drc_message (dr : DesignRule) (e : PyExc) : string :=
  "Design rule " +:+ dr_name dr +:+ " triggered an error:" +:+ nl +:+
  join_args (exc_args e).

(** [check_drc(graph, design_rules)] *)
Fixpoint check_drc (graph : ref) (design_rules : list DesignRule) : M unit :=
  match design_rules with
  | [] => ret tt
  | dr :: rest =>
      try_except (call_rule dr graph) DRCError
        (λ e, raise (mkExc DRCError [PyStr (drc_message dr e)])) ;;;
      check_drc graph rest
  end.

Definition modify_heap (f : Heap → Heap) : M unit :=
  λ w, (Return tt, mkWorld (f (heap w)) (calls w)).

(** ** Connecting nodes and modules *)

(** Modelled from the spec: the containers of [rockpool.graph] are not among
    the sources.  A node holds "a set" of modules and adding a node twice "is
    a no-op": appending keeps each element once. *)
Definition set_append (x : ref) (l : list ref) : list ref :=
  if decide (x ∈ l) then l else l ++ [x].


Definition upd_node (f : GraphNode → GraphNode) (n : ref) (h : Heap) : Heap :=
  mkHeap (alter f n (nodes h)) (modules h).

Definition upd_module (f : GraphModuleObj → GraphModuleObj) (m : ref)
    (h : Heap) : Heap :=
  mkHeap (nodes h) (alter f m (modules h)).

(** Modelled from the spec: [GraphNode.add_sink], [add_source],
    [remove_sink] and [remove_source] of [rockpool.graph] are not among the
    sources.  A GraphNode "holds a set of source modules (producers) and sink
    modules (consumers)": adding a module that is present changes nothing. *)
Definition add_sink (m : ref) (nd : GraphNode) : GraphNode :=
  mkNode (source_modules nd) (set_append m (sink_modules nd)).

Definition add_source (m : ref) (nd : GraphNode) : GraphNode :=
  mkNode (set_append m (source_modules nd)) (sink_modules nd).



Definition set_input_nodes (l : list ref) (o : GraphModuleObj) : GraphModuleObj :=
  mkModule (mod_class o) l (output_nodes o) (name o) (fields o).

Definition set_output_nodes (l : list ref) (o : GraphModuleObj) : GraphModuleObj :=
  mkModule (mod_class o) (input_nodes o) l (name o) (fields o).

(** Modelled from the spec: [GraphModule.add_input] and [add_output] of
    [rockpool.graph] are not among the sources.  The operation "registers
    [node] as belonging to [module]'s ordered input/output list and records
    [module] as a sink/source of [node], respectively.  Idempotent: adding the
    same node twice is a no-op." *)
Definition add_input_heap (m n : ref) (h : Heap) : Heap :=
  upd_node (add_sink m) n
    (upd_module (λ o, set_input_nodes (set_append n (input_nodes o)) o) m h).

Definition add_input (m n : ref) : M unit := modify_heap (add_input_heap m n).

Definition add_output_heap (m n : ref) (h : Heap) : Heap :=
  upd_node (add_source m) n
    (upd_module (λ o, set_output_nodes (set_append n (output_nodes o)) o) m h).

Definition add_output (m n : ref) : M unit := modify_heap (add_output_heap m n).

(** ** Creating and replacing modules *)









(** ** Conversion to [MyNeurons] *)







(** A rule passes on a graph when its call returns. *)
Definition passes (h : Heap) (graph : ref) (dr : DesignRule) : Prop :=
  dr_check dr h graph = Return tt.

(** The calls logged when the rules of [l] are applied in order. *)
Definition rule_calls (graph : ref) (l : list DesignRule) : list Event :=
  map (λ dr, Call_rule (dr_name dr) graph) l.



End Graph.

(** ** The functional state protocol *)

Module Functional.

(** The classes [Module] and [JaxModule] of [rockpool.nn.modules], whose
    methods the notebook [api-functional] calls ([mod(input)], [state],
    [parameters], [set_attributes], [reset_state], [reset_parameters],
    [tree_flatten], [tree_unflatten]), are not among the sources.  Every
    definition of this module is modelled from the specification, sections 3
    and 4.1, and says so. *)

(** A dotted name [a.b.x], as the list of its components. *)
Abbreviation Path := (list string).

(** Modelled from the spec: the values of a Unit's entries are absent from
    the sources.  "Every name maps to a value of a declared semantic type
    (scalar, array ...)"; the numbers are rationals. *)
Inductive Value :=
| Scalar (q : Q)
| Array (l : list Q).

Inductive VType :=
| TScalar
| TArray (len : nat).

#[global] Instance VType_eq_dec : EqDecision VType.
Proof. solve_decision. Defined.

Definition type_of (v : Value) : VType :=
  match v with
  | Scalar _ => TScalar
  | Array l => TArray (length l)
  end.

(** Modelled from the spec: the attribute bundle, absent from the sources, is
    "a mapping from hierarchical dotted name (unit, and recursively each
    nested sub-unit) to value". *)
Abbreviation Bundle := (gmap Path Value).

(** Modelled from the spec: the Unit, absent from the sources, is "a value
    holding three disjoint mappings from name to value: trainable parameters,
    mutable state, and fixed simulation parameters"; it is "constructed with
    default or supplied initial values", to which the resets return, it has a
    shape descriptor, and it has named sub-units. *)
Inductive UnitTree := mkUnit {
  u_shape : list nat;
  u_params : gmap string Value;
  u_state : gmap string Value;
  u_sim : gmap string Value;
  u_init_params : gmap string Value;
  u_init_state : gmap string Value;
  u_subs : list (string * UnitTree);
}.

#[global] Instance single_path_inj : Inj (=) (=) (λ n : string, [n]).
Proof. intros x y H. by inversion H. Qed.

(** Modelled from the spec: the flattening of a Unit's entries, absent from
    the sources, goes "recursively through sub-units with dotted names": the
    entries of sub-unit [k] get the prefix [k]. *)
Definition bundle_subs (rec : UnitTree → Bundle) (l : list (string * UnitTree))
    : Bundle :=
  foldr (λ '(k, su) acc, kmap (cons k) (rec su) ∪ acc) ∅ l.

Fixpoint bundle (sel : UnitTree → gmap string Value) (t : UnitTree) : Bundle :=
  kmap (λ n, [n]) (sel t) ∪ bundle_subs (bundle sel) (u_subs t).

(** Modelled from the spec: "[b] merged over [state(u)]" is the state with
    the "values from [bundle] overlaid onto matching names; names not present
    in [bundle] are left unchanged". *)
Definition merge_over (b s : Bundle) : Bundle :=
  map_imap (λ p v, Some (default v (b !! p))) s.

Definition overlay (b : Path → option Value) (m : gmap string Value)
    : gmap string Value :=
  map_imap (λ n v, Some (default v (b [n]))) m.

(** Modelled from the spec: the update behind [set_attributes], absent from
    the sources: "values from [bundle] overlaid onto matching names
    (parameters, state, or simulation parameters); names not present in
    [bundle] are left unchanged", through the sub-units. *)
Fixpoint set_attrs (b : Path → option Value) (t : UnitTree) : UnitTree :=
  mkUnit (u_shape t)
    (overlay b (u_params t)) (overlay b (u_state t)) (overlay b (u_sim t))
    (u_init_params t) (u_init_state t)
    (map (λ '(k, su), (k, set_attrs (λ p, b (k :: p)) su)) (u_subs t)).

(** Modelled from the spec: the update behind [reset_state], absent from
    the sources: "state entries are restored to their declared initial
    values; parameters unaffected". *)
Fixpoint reset_state_tree (t : UnitTree) : UnitTree :=
  mkUnit (u_shape t) (u_params t) (u_init_state t) (u_sim t)
    (u_init_params t) (u_init_state t)
    (map (λ '(k, su), (k, reset_state_tree su)) (u_subs t)).

(** Modelled from the spec: the update behind [reset_parameters], absent
    from the sources: "parameters are restored to declared initial values;
    state unaffected". *)
Fixpoint reset_parameters_tree (t : UnitTree) : UnitTree :=
  mkUnit (u_shape t) (u_init_params t) (u_state t) (u_sim t)
    (u_init_params t) (u_init_state t)
    (map (λ '(k, su), (k, reset_parameters_tree su)) (u_subs t)).





(** Time series: [T] rows of [N] channels. *)
Abbreviation Series := (list (list Q)).

(** Modelled from the spec: the classes of Units ([RateJax] in the notebook)
    are absent from the sources.  A class has a constructor, "re-invocable
    given only the static metadata (primarily a shape descriptor)", and
    dynamics: "a pure function of the unit's current parameters/state and
    input" that gives the output, the new state bundle and the record. *)
Record UnitClass := mkClass {
  class_name : string;
  construct : list nat → UnitTree;
  dynamics : UnitTree → Series → Series * Bundle * Bundle;
}.

Record Unit := mkU {
  unit_class : UnitClass;
  unit_tree : UnitTree;
}.

(** The three families of entries. *)
Definition family (sel : UnitTree → gmap string Value) : Prop :=
  sel = u_params ∨ sel = u_state ∨ sel = u_sim.

(** All declared names of a Unit, with their values. *)
Definition attributes (t : UnitTree) : Bundle :=
  bundle u_params t ∪ bundle u_state t ∪ bundle u_sim t.

(** The invariant of the data model: "the three name-sets are disjoint". *)
Definition disjoint_families (t : UnitTree) : Prop :=
  dom (bundle u_params t) ## dom (bundle u_state t) ∧
  dom (bundle u_params t) ## dom (bundle u_sim t) ∧
  dom (bundle u_state t) ## dom (bundle u_sim t).


(** *** The store of Units and the operations *)

Abbreviation uref := nat.

(** The world of the notebook: the Units that its variables name, and the
    state of numpy's global random generator, from which the notebook draws
    its input ([np.random.rand(T, N)]). *)
Record World := mkWorld {
  store : gmap uref Unit;
  global_random_state : Z;
}.

Inductive Error :=
| UnknownAttributeError
| ShapeMismatchError
| InvalidReference.

Definition F (A : Type) : Type := World → (Error + A) * World.

Definition alloc (u : Unit) : F uref :=
  λ w, let r := fresh (dom (store w)) in
       (inr r, mkWorld (<[r := u]> (store w)) (global_random_state w)).

Definition read (r : uref) : F Unit :=
  λ w, match store w !! r with
       | Some u => (inr u, w)
       | None => (inl InvalidReference, w)
       end.

Definition fbind {A B : Type} (m : F A) (k : A → F B) : F B :=
  λ w, match m w with
       | (inr a, w') => k a w'
       | (inl e, w') => (inl e, w')
       end.

Definition fret {A : Type} (a : A) : F A := λ w, (inr a, w).
Definition fail {A : Type} (e : Error) : F A := λ w, (inl e, w).

Declare Scope unit_scope.
Delimit Scope unit_scope with unit.
Notation "'let*' x := m 'in' k" := (fbind m (λ x, k))
  (at level 10, x name, m at level 100, k at level 200) : unit_scope.
Local Open Scope unit_scope.

(** Modelled from the spec: [state], [parameters] and
    [simulation_parameters] are absent from the sources.  [state(unit)]
    "returns the current Attribute Bundle of all state entries, flattened
    recursively through sub-units with dotted names"; [parameters(unit)] the
    "same, for trainable parameters". *)
Definition state (r : uref) : F Bundle :=
  let* u := read r in fret (bundle u_state (unit_tree u)).

Definition parameters (r : uref) : F Bundle :=
  let* u := read r in fret (bundle u_params (unit_tree u)).

Definition simulation_parameters (r : uref) : F Bundle :=
  let* u := read r in fret (bundle u_sim (unit_tree u)).

(** Modelled from the spec: [evolve] ([mod(input)] in the notebook) is absent
    from the sources.  [evolve(unit, input) -> (output, new_state_bundle,
    record)] is a "pure function of [unit]'s current parameters/state and
    [input]; MUST NOT mutate [unit]"; a generator key is a state entry of the
    Unit. *)
Definition evolve (r : uref) (input : Series) : F (Series * Bundle * Bundle) :=
  let* u := read r in fret (dynamics (unit_class u) (unit_tree u) input).

(** Modelled from the spec: the checks of [set_attributes], absent from the
    sources: "names in [bundle] not recognized by [unit] signal an
    [UnknownAttributeError]", and "a malformed bundle (wrong leaf type, wrong
    shape) signals a [ShapeMismatchError]". *)
Definition check_bundle (b : Bundle) (t : UnitTree) : option Error :=
  if bool_decide (dom b ⊆ dom (attributes t)) then
    if bool_decide
         (map_Forall (λ p v, type_of <$> attributes t !! p = Some (type_of v)) b)
    then None
    else Some ShapeMismatchError
  else Some UnknownAttributeError.

(** Modelled from the spec: [set_attributes] is absent from the sources.
    [set_attributes(unit, bundle) -> new_unit] "returns a distinct Unit; the
    original [unit] is left unchanged". *)
Definition set_attributes (r : uref) (b : Bundle) : F uref :=
  let* u := read r in
  match check_bundle b (unit_tree u) with
  | Some e => fail e
  | None => alloc (mkU (unit_class u) (set_attrs (λ p, b !! p) (unit_tree u)))
  end.

(** Modelled from the spec: attribute assignment on a Module is absent from
    the sources.  [unit.field = value] at the top level "mutates in place and
    is semantically equivalent to [unit = set_attributes(unit, {field:
    value})]". *)
Definition assign (r : uref) (field : string) (v : Value) : F unit :=
  let* u := read r in
  let b : Bundle := {[ [field] := v ]} in
  match check_bundle b (unit_tree u) with
  | Some e => fail e
  | None =>
      λ w, (inr tt,
            mkWorld (<[r := mkU (unit_class u)
                              (set_attrs (λ p, b !! p) (unit_tree u))]> (store w))
                    (global_random_state w))
  end.

(** Modelled from the spec: [reset_state] and [reset_parameters] are absent
    from the sources; each "returns a new Unit". *)
Definition reset_state (r : uref) : F uref :=
  let* u := read r in
  alloc (mkU (unit_class u) (reset_state_tree (unit_tree u))).

Definition reset_parameters (r : uref) : F uref :=
  let* u := read r in
  alloc (mkU (unit_class u) (reset_parameters_tree (unit_tree u))).




End Functional.

(** ** Example data *)

Module Examples.
Import Graph.

Definition repr_node (h : Heap) (n : ref) : string := "GraphNode " +:+ pretty n.
Definition repr_module (h : Heap) (m : ref) : string :=
  match modules h !! m with
  | Some o => cls_name (mod_class o) +:+ " " +:+ name o
  | None => "?"
  end.

(** A small network: input node 1, weights 3, node 4, neurons 5, output
    node 2, held by the graph 0. *)
Definition net_nodes : gmap ref GraphNode :=
  <[1%nat := mkNode [] [3%nat]]>
  (<[4%nat := mkNode [3%nat] [5%nat]]>
  (<[2%nat := mkNode [5%nat] []]> ∅)).

Definition lif_module : GraphModuleObj :=
  mkModule LIFNeuronWithSynsRealValue [4%nat] [2%nat] "spiking"
    (LIFFields [(5 # 2)%Q; (7 # 2)%Q; (6 # 5)%Q] (Some (1 # 1000)%Q)).

Definition net_modules : gmap ref GraphModuleObj :=
  <[0%nat := mkModule GraphModule [1%nat] [2%nat] "net" PlainFields]>
  (<[3%nat := mkModule LinearWeights [1%nat] [4%nat] "weights" PlainFields]>
  (<[5%nat := lif_module]> ∅)).

Definition net : Heap := mkHeap net_nodes net_modules.

(** The same network with the weights wired directly to the output. *)
Definition bad_net : Heap :=
  mkHeap (<[2%nat := mkNode [3%nat] []]> net_nodes) net_modules.

Definition rules : list DesignRule := xylo_drc repr_node repr_module.

(** A rule that fails with a plain [ValueError], like the check of
    [MyGraphModule.__post_init__]. *)
Definition param_check : DesignRule :=
  mkRule "param_check"
    (λ _ _, Raise (mkExc ValueError [PyStr "param1 must be > param2"])).

Definition start (h : Heap) : World := mkWorld h [].



End Examples.

(** Example Units: a rate unit of [N] channels with an accumulating state
    [x] and a generator key [rng_key] in its state, and a stack that holds
    one rate unit as a sub-unit. *)
Module UnitExamples.
Import Functional.
Local Open Scope Q_scope.

Definition rate_tree (shape : list nat) : UnitTree :=
  let N := hd 0%nat shape in
  let params : gmap string Value := {[ "tau" := Array (replicate N (1 # 50)) ]} in
  let st : gmap string Value :=
    <[ "x" := Array (replicate N 0) ]> {[ "rng_key" := Array [0; 42] ]} in
  mkUnit shape params st {[ "dt" := Scalar (1 # 1000) ]} params st [].

Definition get_array (m : gmap string Value) (n : string) : list Q :=
  match m !! n with
  | Some (Array l) => l
  | _ => []
  end.

(** The state after each time step: the state before plus the input row. *)
Fixpoint accumulate (x : list Q) (input : Series) : Series * list Q :=
  match input with
  | [] => ([], x)
  | row :: rest =>
      let x' := zip_with Qplus x row in
      let '(out, xf) := accumulate x' rest in
      (x' :: out, xf)
  end.

(** The key is advanced by a fixed function of the key alone. *)
Definition advance_key (k : list Q) : list Q := map (λ q, q * 3 + 1) k.

Definition rate_dynamics (t : UnitTree) (input : Series)
    : Series * Bundle * Bundle :=
  let '(out, xf) := accumulate (get_array (u_state t) "x") input in
  (out,
   <[ ["x"] := Array xf ]>
     {[ ["rng_key"] := Array (advance_key (get_array (u_state t) "rng_key")) ]},
   ∅).

Definition rate_class : UnitClass := mkClass "Rate" rate_tree rate_dynamics.

Definition stack_tree (shape : list nat) : UnitTree :=
  mkUnit shape ∅ ∅ ∅ ∅ ∅ [("0_rate", rate_tree shape)].

Definition stack_dynamics (t : UnitTree) (input : Series)
    : Series * Bundle * Bundle :=
  match u_subs t with
  | (k, su) :: _ =>
      let '(out, ns, rec) := rate_dynamics su input in
      (out, kmap (cons k) ns, kmap (cons k) rec)
  | [] => (input, ∅, ∅)
  end.

Definition stack_class : UnitClass := mkClass "Stack" stack_tree stack_dynamics.

Definition input0 : Series := [[1; 2; 0]; [1 # 2; 0; 3]].

(** A bundle that sets the state [x] of the sub-unit of the stack. *)
Definition bundle0 : Bundle := {[ ["0_rate"; "x"] := Array [1; 1; 1] ]}.

Definition rate_unit : Unit := mkU rate_class (rate_tree [3%nat]).

(** A stack whose values are no longer those of its constructor. *)
Definition stack_unit : Unit :=
  mkU stack_class
    (set_attrs (λ p, ({[ ["0_rate"; "x"] := Array [5; 0; 2 # 3];
                         ["0_rate"; "tau"] := Array [1; 1; 1] ]} : Bundle) !! p)
       (stack_tree [3%nat])).

(** [mod = RateJax(3)] of the notebook, and the stack, in one world. *)
Definition world0 : World :=
  mkWorld (<[ 0%nat := rate_unit ]> {[ 1%nat := stack_unit ]}) 2024.

End UnitExamples.

(** ** What the design rules ask of a graph *)

Module GraphSpec.
Import Graph.

(** The object [m] is a module of the heap and an instance of [cls]. *)
Definition is_instance (h : Heap) (cls : PyClass) (m : ref) : Prop :=
  ∃ o, modules h !! m = Some o ∧ issubclass (mod_class o) cls = true.

(** Every source module of node [n] is an instance of [cls]. *)
Definition node_sources_are (h : Heap) (cls : PyClass) (n : ref) : Prop :=
  ∃ nd, nodes h !! n = Some nd ∧ Forall (is_instance h cls) (source_modules nd).

(** Every sink module of node [n] is an instance of [cls]. *)
Definition node_sinks_are (h : Heap) (cls : PyClass) (n : ref) : Prop :=
  ∃ nd, nodes h !! n = Some nd ∧ Forall (is_instance h cls) (sink_modules nd).

(** "All output nodes must have a source that is a neuron." *)
Definition outputs_from_neurons (h : Heap) (g : GraphModuleObj) : Prop :=
  Forall (node_sources_are h GenericNeurons) (output_nodes g).

(** "The first module after the input must be a set of weights." *)
Definition inputs_to_weights (h : Heap) (g : GraphModuleObj) : Prop :=
  Forall (node_sinks_are h LinearWeights) (input_nodes g).

(** The objects that the rules visit are in the heap: the output nodes of
    the graph with their source modules, its input nodes with their sink
    modules.  Every graph built in Python is closed in this sense. *)
Definition closed_graph (h : Heap) (g : GraphModuleObj) : Prop :=
  Forall (node_sources_are h GraphModule) (output_nodes g)
  ∧ Forall (node_sinks_are h GraphModule) (input_nodes g).

(** The f-strings of the first two rules. *)
Definition not_a_neuron_message (repr_node repr_module : Heap → ref → string)
    (h : Heap) (n s : ref) : string :=
  "All network outputs must be directly from neurons." +:+ nl +:+
  "A network output node " +:+ repr_node h n +:+
  " has a source " +:+ repr_module h s +:+ " which is not a neuron.".

Definition not_a_weight_message (repr_node repr_module : Heap → ref → string)
    (h : Heap) (inp sink : ref) : string :=
  "The network input must go first through a weight." +:+ nl +:+
  "A network input node " +:+ repr_node h inp +:+
  " has a sink module " +:+ repr_module h sink +:+
  " which is not a LinearWeight.".

(** The shape that the first two rules share: for each node of a list, for
    each module on one side of the node, test the class of the module. *)
Definition class_test (h : Heap) (cls : PyClass) (msg : string) (s : ref)
    : Result unit :=
  isinstance h s cls ≫= λ b : bool,
    if negb b then Raise (mkExc DRCError [PyStr msg]) else Return tt.

Definition node_scan (h : Heap) (cls : PyClass) (side : GraphNode → list ref)
    (msg : ref → ref → string) (l : list ref) : Result unit :=
  for_each l (λ n,
    get_node h n ≫= λ nd,
      for_each (side nd) (λ s, class_test h cls (msg n s) s)).

(** A rule returned, or raised a [DRCError] that carries one string. *)
Definition drc_outcome (r : Result unit) : Prop :=
  r = Return tt ∨ ∃ msg, r = Raise (mkExc DRCError [PyStr msg]).

(** The f-string of the third rule. *)
Definition too_many_inputs_message (g : GraphModuleObj) : string :=
  "Xylo only supports up to 16 input channels. The network requires " +:+
  pretty (length (input_nodes g)) +:+ " input channels.".

(** A network with 17 input nodes, and one whose output node has a neuron
    and then a weight as sources. *)
Definition wide_net : Heap :=
  mkHeap Examples.net_nodes
    (<[0%nat := mkModule GraphModule (replicate 17 1%nat) [2%nat] "net"
                  PlainFields]> Examples.net_modules).

Definition mixed_net : Heap :=
  mkHeap (<[2%nat := mkNode [5%nat; 3%nat] []]> Examples.net_nodes)
    Examples.net_modules.

(** A rule that raises a subclass of [DRCError] with two arguments. *)
Definition strict_rule : DesignRule :=
  mkRule "strict_rule"
    (λ _ _, Raise (mkExc (UserError "XyloError" DRCError)
                     [PyStr "core "; PyInt 3])).


End GraphSpec.

(** ** The steps of the notebook on the functional API *)

Module Notebook.
Import Functional.
Local Open Scope unit_scope.

(** [output, new_state, record = mod(input)] followed by
    [mod = mod.set_attributes(new_state)]: one evolution whose new state is
    folded back into a new Unit. *)
Definition evolve_and_update (r : uref) (input : Series) : F (uref * Series) :=
  let* res := evolve r input in
  let* r' := set_attributes r res.1.2 in
  fret (r', res.1.1).

(** [params = mod.parameters()], [params[n] = v],
    [mod = mod.set_attributes(params)]. *)
Definition set_parameter (r : uref) (n : string) (v : Value) : F uref :=
  let* params := parameters r in
  set_attributes r (<[ [n] := v ]> params).

(** Modelled from the spec: attribute access on a Module is absent from the
    sources.  Reading [mod.n] gives the value of the entry that the Unit
    declares under [n]; a name that the Unit does not declare is an
    unknown attribute. *)
Definition get_attribute (r : uref) (n : string) : F Value :=
  let* u := read r in
  match attributes (unit_tree u) !! [n] with
  | Some v => fret v
  | None => fail UnknownAttributeError
  end.

(** [mod = mod.reset_state()] followed by [mod = mod.reset_parameters()]. *)
Definition reset_all (r : uref) : F uref :=
  let* r1 := reset_state r in
  reset_parameters r1.

(** A bundle is valid for a Unit when [set_attributes] accepts it: its names
    are declared and its values have the declared types. *)
Definition valid_bundle (b : Bundle) (t : UnitTree) : Prop :=
  dom b ⊆ dom (attributes t)
  ∧ map_Forall (λ p v, type_of <$> attributes t !! p = Some (type_of v)) b.

End Notebook.

(** * Properties of the graph protocol *)

Module GraphTheory.
Import Graph Examples.
Local Open Scope py_scope.

Lemma check_drc_step_pass graph dr rest w :
  passes (heap w) graph dr →
  check_drc graph (dr :: rest) w
  = check_drc graph rest (mkWorld (heap w) (calls w ++ [Call_rule (dr_name dr) graph])).
Proof.
  unfold passes. intros Hp. cbn [check_drc].
  unfold bind, try_except, call_rule, bind, log, get_heap, lift. cbn.
  by rewrite Hp.
Qed.

Lemma check_drc_step_drc graph dr rest w e :
  dr_check dr (heap w) graph = Raise e →
  isinstance_exc e DRCError = true →
  check_drc graph (dr :: rest) w
  = (Raise (mkExc DRCError [PyStr (drc_message dr e)]),
     mkWorld (heap w) (calls w ++ [Call_rule (dr_name dr) graph])).
Proof.
  intros Hr He. cbn [check_drc].
  unfold bind, try_except, call_rule, bind, log, get_heap, lift, raise. cbn.
  by rewrite Hr, He.
Qed.

Lemma check_drc_step_other graph dr rest w e :
  dr_check dr (heap w) graph = Raise e →
  isinstance_exc e DRCError = false →
  check_drc graph (dr :: rest) w
  = (Raise e, mkWorld (heap w) (calls w ++ [Call_rule (dr_name dr) graph])).
Proof.
  intros Hr He. cbn [check_drc].
  unfold bind, try_except, call_rule, bind, log, get_heap, lift, raise. cbn.
  by rewrite Hr, He.
Qed.

Lemma check_drc_prefix graph pre rest w :
  Forall (passes (heap w) graph) pre →
  check_drc graph (pre ++ rest) w
  = check_drc graph rest (mkWorld (heap w) (calls w ++ rule_calls graph pre)).
Proof.
  revert w. induction pre as [|dr pre IH]; intros w Hall.
  - cbn. rewrite app_nil_r. by destruct w.
  - inversion Hall as [|? ? Hdr Hpre]; subst.
    rewrite <- app_comm_cons, check_drc_step_pass by done.
    rewrite IH by done. cbn. by rewrite <- app_assoc.
Qed.

Lemma check_drc_heap graph l w : heap (check_drc graph l w).2 = heap w.
Proof.
  revert w. induction l as [|dr l IH]; intros w; [done|].
  destruct (dr_check dr (heap w) graph) as [[]|e] eqn:Hr.
  - rewrite check_drc_step_pass by done. by rewrite IH.
  - destruct (isinstance_exc e DRCError) eqn:He.
    + by erewrite check_drc_step_drc.
    + by erewrite check_drc_step_other.
Qed.

Lemma check_drc_ok_iff graph l w :
  (check_drc graph l w).1 = Return tt ↔ Forall (passes (heap w) graph) l.
Proof.
  revert w. induction l as [|dr l IH]; intros w.
  - cbn. split; [constructor | done].
  - destruct (dr_check dr (heap w) graph) as [[]|e] eqn:Hr.
    + rewrite check_drc_step_pass by done. rewrite IH. cbn.
      split; [by constructor | by inversion 1].
    + assert (Hno : ¬ passes (heap w) graph dr).
      { unfold passes. by rewrite Hr. }
      destruct (isinstance_exc e DRCError) eqn:He.
      * erewrite check_drc_step_drc by done. cbn.
        split; [done | by inversion 1].
      * erewrite check_drc_step_other by done. cbn.
        split; [done | by inversion 1].
Qed.

(** C1. [check_drc] runs the rules in order.  When the rules before [dr] pass
    and [dr] raises the violation [e] (a [DRCError]), the run raises a
    [DRCError] whose message is the name of [dr] followed by the messages of
    [e] joined, and the rules called are exactly those up to [dr]: none after
    it is invoked.  The run returns iff every rule passes. *)
Theorem check_drc_fail_fast (graph : ref) (design_rules : list DesignRule)
    (w : World) :
  (∀ pre dr post e,
     design_rules = pre ++ dr :: post →
     Forall (passes (heap w) graph) pre →
     dr_check dr (heap w) graph = Raise e →
     isinstance_exc e DRCError = true →
     check_drc graph design_rules w
     = (Raise (mkExc DRCError [PyStr (
          "Design rule " +:+ dr_name dr +:+ " triggered an error:" +:+ nl +:+
          join_args (exc_args e))]),
        mkWorld (heap w) (calls w ++ rule_calls graph (pre ++ [dr]))))
  ∧ ((check_drc graph design_rules w).1 = Return tt
     ↔ Forall (passes (heap w) graph) design_rules).
Proof.
  split; [|apply check_drc_ok_iff].
  intros pre dr post e -> Hpre Hr He.
  rewrite check_drc_prefix by done.
  erewrite check_drc_step_drc by done. cbn [heap calls].
  unfold rule_calls. by rewrite map_app, app_assoc.
Qed.

(** C10. A rule that raises an exception [e] that is not a [DRCError] makes
    [check_drc] raise [e] itself, without the rule's name, and the rules after
    it are not called. *)
Theorem check_drc_other_exception (graph : ref) (pre post : list DesignRule)
    (dr : DesignRule) (e : PyExc) (w : World) :
  Forall (passes (heap w) graph) pre →
  dr_check dr (heap w) graph = Raise e →
  isinstance_exc e DRCError = false →
  check_drc graph (pre ++ dr :: post) w
  = (Raise e, mkWorld (heap w) (calls w ++ rule_calls graph (pre ++ [dr]))).
Proof.
  intros Hpre Hr He.
  rewrite check_drc_prefix by done.
  erewrite check_drc_step_other by done. cbn [heap calls].
  unfold rule_calls. by rewrite map_app, app_assoc.
Qed.

(** The third rule of the notebook passes exactly on graphs with at most 16
    input nodes. *)
Lemma le_16_input_channels_passes (h : Heap) (graph : ref) (g : GraphModuleObj) :
  modules h !! graph = Some g →
  le_16_input_channels h graph = Return tt ↔ (length (input_nodes g) ≤ 16)%nat.
Proof.
  intros Hg. unfold le_16_input_channels, get_module. rewrite Hg. cbn.
  destruct (decide (16 < length (input_nodes g))%nat) as [Hgt|Hle].
  - split; [done|lia].
  - split; [lia|done].
Qed.

(** *** Conversion *)


(** *** Registering inputs *)

Lemma set_append_idemp x l : set_append x (set_append x l) = set_append x l.
Proof.
  unfold set_append. destruct (decide (x ∈ l)) as [Hin|Hout].
  - by rewrite decide_True.
  - rewrite decide_True; [done|]. apply elem_of_app. right. by left.
Qed.

Lemma set_append_elem x l : x ∈ set_append x l.
Proof.
  unfold set_append. destruct (decide (x ∈ l)); [done|].
  apply elem_of_app. right. by left.
Qed.

Lemma set_append_NoDup x l : NoDup l → NoDup (set_append x l).
Proof.
  intros Hl. unfold set_append. destruct (decide (x ∈ l)); [done|].
  apply NoDup_app. split_and!; [done| |apply NoDup_singleton].
  intros y Hy Hy'. apply list_elem_of_singleton in Hy'. by subst.
Qed.

Lemma NoDup_count_one (x : ref) (l : list ref) :
  NoDup l → x ∈ l → count_occ Nat.eq_dec l x = 1%nat.
Proof.
  intros Hnd Hin. apply NoDup_ListNoDup in Hnd.
  apply list_elem_of_In in Hin.
  pose proof (proj1 (NoDup_count_occ Nat.eq_dec l) Hnd x) as Hle.
  apply (count_occ_In Nat.eq_dec) in Hin. lia.
Qed.

Lemma alter_idemp {A : Type} (f : A → A) (k : ref) (m : gmap ref A) :
  (∀ a, f (f a) = f a) → alter f k (alter f k m) = alter f k m.
Proof.
  intros Hf. apply map_eq. intros i.
  destruct (decide (k = i)) as [->|Hne].
  - rewrite !lookup_alter_eq. destruct (m !! i); cbn; by rewrite ?Hf.
  - by rewrite !lookup_alter_ne.
Qed.

Lemma add_input_heap_idemp m n h :
  add_input_heap m n (add_input_heap m n h) = add_input_heap m n h.
Proof.
  unfold add_input_heap, upd_node, upd_module. cbn. f_equal.
  - apply alter_idemp. intros [src snk]. unfold add_sink. cbn.
    by rewrite set_append_idemp.
  - apply alter_idemp. intros [c i o' nm fl]. unfold set_input_nodes. cbn.
    by rewrite set_append_idemp.
Qed.

(** C8. [add_input] is idempotent: after one call a second call returns and
    leaves the world as it is; and when the module and the node hold each
    element once (as their set-lists do), one call or two leave exactly one
    registration of the node among the module's inputs and one of the module
    among the node's sinks. *)
Theorem add_input_idempotent (m n : ref) (w : World) :
  let w1 := (add_input m n w).2 in
  let w2 := (add_input m n w1).2 in
  add_input m n w1 = (Return tt, w1)
  ∧ w2 = w1
  ∧ (∀ o nd,
       modules (heap w) !! m = Some o → nodes (heap w) !! n = Some nd →
       NoDup (input_nodes o) → NoDup (sink_modules nd) →
       ∃ o2 nd2,
         modules (heap w2) !! m = Some o2 ∧ nodes (heap w2) !! n = Some nd2 ∧
         count_occ Nat.eq_dec (input_nodes o2) n = 1%nat ∧
         count_occ Nat.eq_dec (sink_modules nd2) m = 1%nat).
Proof.
  cbn zeta.
  assert (Hnoop : add_input m n (add_input m n w).2
                  = (Return tt, (add_input m n w).2)).
  { unfold add_input, modify_heap. cbn. by rewrite add_input_heap_idemp. }
  rewrite Hnoop. cbn [snd]. split_and!; [done..|].
  intros o nd Hm Hn Hndi Hnds.
  unfold add_input, modify_heap, add_input_heap, upd_node, upd_module. cbn.
  rewrite !lookup_alter_eq, Hm, Hn. cbn.
  eexists _, _. split_and!; [done..| |].
  - apply NoDup_count_one; [by apply set_append_NoDup | apply set_append_elem].
  - apply NoDup_count_one; [by apply set_append_NoDup | apply set_append_elem].
Qed.

(** *** Replacing a module *)



















(** *** The properties on the example network *)

Lemma check_drc_fail_fast_witness :
  check_drc 0%nat rules (start bad_net)
  = (Raise (mkExc DRCError [PyStr (
       "Design rule output_nodes_have_neurons_as_source triggered an error:"
       +:+ nl +:+ "All network outputs must be directly from neurons."
       +:+ nl +:+ "A network output node GraphNode 2 has a source "
       +:+ "LinearWeights weights which is not a neuron.")]),
     mkWorld bad_net [Call_rule "output_nodes_have_neurons_as_source" 0%nat])
  ∧ (check_drc 0%nat rules (start net)).1 = Return tt.
Proof.
  split.
  - apply (proj1 (check_drc_fail_fast 0%nat rules (start bad_net)) []
             (mkRule "output_nodes_have_neurons_as_source"
                (output_nodes_have_neurons_as_source repr_node repr_module))
             [mkRule "first_module_is_a_weight"
                (first_module_is_a_weight repr_node repr_module);
              mkRule "le_16_input_channels"
                le_16_input_channels]
             (mkExc DRCError [PyStr (
                "All network outputs must be directly from neurons."
                +:+ nl +:+ "A network output node GraphNode 2 has a source "
                +:+ "LinearWeights weights which is not a neuron.")])).
    + reflexivity.
    + constructor.
    + vm_compute. reflexivity.
    + reflexivity.
  - apply (proj2 (check_drc_fail_fast 0%nat rules (start net))).
    repeat constructor; vm_compute; reflexivity.
Defined.

Lemma check_drc_other_exception_witness :
  check_drc 0%nat ([] ++ param_check :: rules) (start net)
  = (Raise (mkExc ValueError [PyStr "param1 must be > param2"]),
     mkWorld net [Call_rule "param_check" 0%nat]).
Proof.
  apply (check_drc_other_exception 0%nat [] rules param_check
           (mkExc ValueError [PyStr "param1 must be > param2"]) (start net)).
  - constructor.
  - reflexivity.
  - reflexivity.
Defined.


Lemma add_input_idempotent_witness :
  add_input 3%nat 2%nat (add_input 3%nat 2%nat (start net)).2
  = (Return tt, (add_input 3%nat 2%nat (start net)).2)
  ∧ ∃ o2 nd2,
      modules (heap (add_input 3%nat 2%nat
                       (add_input 3%nat 2%nat (start net)).2).2) !! 3%nat
      = Some o2
      ∧ nodes (heap (add_input 3%nat 2%nat
                       (add_input 3%nat 2%nat (start net)).2).2) !! 2%nat
        = Some nd2
      ∧ count_occ Nat.eq_dec (input_nodes o2) 2%nat = 1%nat
      ∧ count_occ Nat.eq_dec (sink_modules nd2) 3%nat = 1%nat.
Proof.
  split.
  - apply (add_input_idempotent 3%nat 2%nat (start net)).
  - apply (proj2 (proj2 (add_input_idempotent 3%nat 2%nat (start net)))
             (mkModule LinearWeights [1%nat] [4%nat] "weights" PlainFields)
             (mkNode [5%nat] [])).
    + reflexivity.
    + reflexivity.
    + apply (bool_decide_unpack _). vm_compute. exact I.
    + apply (bool_decide_unpack _). vm_compute. exact I.
Defined.


End GraphTheory.

(** * Properties of the functional state protocol *)

Module FunctionalTheory.
Import Functional UnitExamples.
Local Open Scope unit_scope.

Lemma UnitTree_nested_ind (P : UnitTree → Prop) :
  (∀ sh p s c ip ist subs,
     Forall (λ ks, P ks.2) subs → P (mkUnit sh p s c ip ist subs)) →
  ∀ t, P t.
Proof.
  intros Hstep. fix IH 1. intros [sh p s c ip ist subs]. apply Hstep.
  induction subs as [|[k su] l IHl]; constructor; [apply IH | apply IHl].
Qed.

Lemma bundle_unfold sel t :
  bundle sel t = kmap (λ n, [n]) (sel t) ∪ bundle_subs (bundle sel) (u_subs t).
Proof. by destruct t. Qed.

Lemma bundle_subs_cons rec k su l :
  bundle_subs rec ((k, su) :: l) = kmap (cons k) (rec su) ∪ bundle_subs rec l.
Proof. done. Qed.

Section Overlay.
Context {K : Type} `{Countable K}.

Lemma lookup_imap_default (b : K → option Value) (m : gmap K Value) (i : K) :
  map_imap (λ j v, Some (default v (b j))) m !! i
  = (λ v, default v (b i)) <$> m !! i.
Proof. rewrite map_lookup_imap. by destruct (m !! i). Qed.

Lemma imap_default_union (b : K → option Value) (m1 m2 : gmap K Value) :
  map_imap (λ j v, Some (default v (b j))) (m1 ∪ m2)
  = map_imap (λ j v, Some (default v (b j))) m1
    ∪ map_imap (λ j v, Some (default v (b j))) m2.
Proof.
  apply map_eq. intros i.
  rewrite lookup_union, !lookup_imap_default, lookup_union.
  by destruct (m1 !! i), (m2 !! i).
Qed.

Lemma imap_default_empty (b : K → option Value) :
  map_imap (λ j v, Some (default v (b j))) (∅ : gmap K Value) = ∅.
Proof. apply map_eq. intros i. by rewrite lookup_imap_default, !lookup_empty. Qed.
End Overlay.

Lemma kmap_imap_default {K1 K2 : Type} `{Countable K1} `{Countable K2}
    (f : K1 → K2) `{!Inj (=) (=) f} (b : K2 → option Value) (m : gmap K1 Value) :
  kmap f (map_imap (λ i v, Some (default v (b (f i)))) m)
  = map_imap (λ j v, Some (default v (b j))) (kmap f m).
Proof.
  apply map_eq. intros j. rewrite lookup_imap_default.
  destruct (kmap f m !! j) as [y|] eqn:Hj.
  - apply (lookup_kmap_Some f) in Hj as (i & -> & Hi).
    rewrite (lookup_kmap f), lookup_imap_default, Hi. done.
  - cbn. rewrite (lookup_kmap_None f) in Hj |- *. intros i ->.
    rewrite lookup_imap_default, (Hj i); done.
Qed.

Lemma set_attrs_family sel b t :
  family sel → sel (set_attrs b t) = overlay b (sel t).
Proof. intros [->|[->| ->]]; by destruct t. Qed.

Lemma set_attrs_subs b t :
  u_subs (set_attrs b t)
  = map (λ '(k, su), (k, set_attrs (λ p, b (k :: p)) su)) (u_subs t).
Proof. by destruct t. Qed.

Lemma bundle_set_attrs sel (b : Path → option Value) t :
  family sel →
  bundle sel (set_attrs b t)
  = map_imap (λ p v, Some (default v (b p))) (bundle sel t).
Proof.
  intros Hsel. revert b.
  induction t as [sh p s c ip ist subs IH] using UnitTree_nested_ind. intros b.
  rewrite (bundle_unfold sel (set_attrs _ _)), (bundle_unfold sel (mkUnit _ _ _ _ _ _ _)).
  rewrite set_attrs_family, set_attrs_subs by done.
  rewrite imap_default_union. f_equal.
  - unfold overlay. apply (kmap_imap_default (λ n, [n])).
  - cbn [u_subs]. induction IH as [|[k su] l Hsu Hl IHl].
    + cbn. by rewrite imap_default_empty.
    + cbn [map]. rewrite !bundle_subs_cons, imap_default_union.
      rewrite IHl. f_equal. cbn in Hsu. rewrite Hsu.
      apply (kmap_imap_default (cons k)).
Qed.

(** A transformation applied to a Unit and to all its sub-units. *)
Lemma bundle_map_tree (F : UnitTree → UnitTree) sel sel' :
  (∀ t, sel (F t) = sel' t) →
  (∀ t, u_subs (F t) = map (λ '(k, su), (k, F su)) (u_subs t)) →
  ∀ t, bundle sel (F t) = bundle sel' t.
Proof.
  intros Hroot Hsubs t.
  induction t as [sh p s c ip ist subs IH] using UnitTree_nested_ind.
  rewrite (bundle_unfold sel), (bundle_unfold sel'), Hroot, Hsubs. f_equal.
  cbn [u_subs]. induction IH as [|[k su] l Hsu Hl IHl]; [done|].
  cbn [map]. rewrite !bundle_subs_cons, IHl. cbn in Hsu. by rewrite Hsu.
Qed.

Lemma reset_state_tree_subs t :
  u_subs (reset_state_tree t)
  = map (λ '(k, su), (k, reset_state_tree su)) (u_subs t).
Proof. by destruct t. Qed.


Lemma reset_state_tree_state t :
  bundle u_state (reset_state_tree t) = bundle u_init_state t.
Proof.
  apply (bundle_map_tree reset_state_tree); [by intros []|].
  apply reset_state_tree_subs.
Qed.


Lemma reset_state_tree_init t :
  bundle u_init_state (reset_state_tree t) = bundle u_init_state t.
Proof.
  apply (bundle_map_tree reset_state_tree); [by intros []|].
  apply reset_state_tree_subs.
Qed.








(** Reading an entry family of a stored Unit. *)
Ltac read_family :=
  unfold state, parameters, simulation_parameters, fbind, read, fret;
  cbn [store].

Lemma alloc_fresh (w : World) :
  store w !! fresh (dom (store w)) = None.
Proof. apply not_elem_of_dom, is_fresh. Qed.




(** Assignment in place stores at the same reference the Unit that
    [set_attributes] would return. *)
Lemma assign_in_place (r : uref) (u : Unit) (field : string) (v : Value)
    (w : World) :
  store w !! r = Some u →
  check_bundle {[ [field] := v ]} (unit_tree u) = None →
  ∃ w', assign r field v w = (inr tt, w')
        ∧ store w' !! r
          = Some (mkU (unit_class u)
                    (set_attrs (λ p, ({[ [field] := v ]} : Bundle) !! p)
                       (unit_tree u))).
Proof.
  intros Hr Hcheck. unfold assign, fbind, read. rewrite Hr, Hcheck.
  eexists. split; [reflexivity|]. cbn. apply lookup_insert_eq.
Qed.

Lemma check_bundle_ok (b : Bundle) (t : UnitTree) :
  dom b ⊆ dom (attributes t) →
  map_Forall (λ p v, type_of <$> attributes t !! p = Some (type_of v)) b →
  check_bundle b t = None.
Proof.
  intros Hdom Hty. unfold check_bundle.
  by rewrite !bool_decide_eq_true_2.
Qed.

Lemma lookup_merge_over (b s : Bundle) (p : Path) :
  merge_over b s !! p = (λ v, default v (b !! p)) <$> s !! p.
Proof. unfold merge_over. apply (lookup_imap_default (λ q, b !! q)). Qed.

(** C3. For a bundle [b] whose names are declared by the Unit and whose
    values have the declared types, [set_attributes] returns a new Unit whose
    state is [b] merged over the state of the original: names present in [b]
    take [b]'s values, the other names keep theirs; the original Unit and its
    state are unchanged. *)
Theorem set_attributes_merges (r : uref) (u : Unit) (b : Bundle) (w : World) :
  store w !! r = Some u →
  dom b ⊆ dom (attributes (unit_tree u)) →
  map_Forall (λ p v, type_of <$> attributes (unit_tree u) !! p
                     = Some (type_of v)) b →
  ∃ r' w',
    set_attributes r b w = (inr r', w')
    ∧ r' ≠ r
    ∧ store w' !! r = Some u
    ∧ (state r w').1 = (state r w).1
    ∧ (state r' w').1 = inr (merge_over b (bundle u_state (unit_tree u)))
    ∧ (∀ p v old, b !! p = Some v →
         bundle u_state (unit_tree u) !! p = Some old →
         merge_over b (bundle u_state (unit_tree u)) !! p = Some v)
    ∧ (∀ p, b !! p = None →
         merge_over b (bundle u_state (unit_tree u)) !! p
         = bundle u_state (unit_tree u) !! p).
Proof.
  intros Hr Hdom Hty.
  set (r' := fresh (dom (store w))).
  assert (Hfresh : store w !! r' = None) by (by apply alloc_fresh).
  assert (Hne : r' ≠ r) by (intros ->; congruence).
  eexists r', _. split_and!.
  - unfold set_attributes, fbind, read. rewrite Hr.
    rewrite check_bundle_ok by done. reflexivity.
  - done.
  - cbn. by rewrite lookup_insert_ne.
  - read_family.
    rewrite lookup_insert_ne, Hr by done. done.
  - read_family.
    rewrite lookup_insert_eq. cbn.
    rewrite bundle_set_attrs by (right; by left). done.
  - intros p v old Hb Hold. by rewrite lookup_merge_over, Hb, Hold.
  - intros p Hb. rewrite lookup_merge_over, Hb.
    by destruct (bundle u_state (unit_tree u) !! p).
Qed.

Lemma merge_over_same (b c t : Bundle) :
  dom c = dom t →
  (∀ p v, t !! p = Some v → b !! p = Some v) →
  merge_over b c = t.
Proof.
  intros Hdom Hb. apply map_eq. intros p. rewrite lookup_merge_over.
  destruct (t !! p) as [v|] eqn:Ht.
  - assert (Hin : p ∈ dom c) by (rewrite Hdom; by apply elem_of_dom).
    apply elem_of_dom in Hin as [v0 Hc]. rewrite Hc. cbn.
    by rewrite (Hb _ _ Ht).
  - assert (Hc : c !! p = None).
    { apply not_elem_of_dom. rewrite Hdom. by apply not_elem_of_dom. }
    by rewrite Hc.
Qed.


(** *** The properties on the example Units *)



Lemma set_attributes_merges_witness :
  ∃ r' w',
    set_attributes 1%nat bundle0 world0 = (inr r', w')
    ∧ r' ≠ 1%nat
    ∧ store w' !! 1%nat = Some stack_unit
    ∧ (state r' w').1
      = inr (merge_over bundle0 (bundle u_state (unit_tree stack_unit))).
Proof.
  destruct (set_attributes_merges 1%nat stack_unit
              bundle0 world0)
    as (r' & w' & H1 & H2 & H3 & _ & H5 & _).
  - reflexivity.
  - apply (bool_decide_unpack _). vm_compute. exact I.
  - apply (bool_decide_unpack _). vm_compute. exact I.
  - exists r', w'. repeat split; assumption.
Defined.



End FunctionalTheory.

(** * Further properties of the graph protocol *)

Module GraphExtra.
Import Graph Examples GraphSpec GraphTheory.
Local Open Scope py_scope.

(** *** Loops that may raise *)

Lemma for_each_ok {A : Type} (l : list A) (body : A → Result unit) :
  for_each l body = Return tt ↔ Forall (λ x, body x = Return tt) l.
Proof.
  induction l as [|x l IH]; cbn.
  - split; [constructor | done].
  - destruct (body x) as [[]|e] eqn:Hx.
    + rewrite IH. split; [by constructor | by inversion 1].
    + split; [done | inversion 1; congruence].
Qed.

Lemma for_each_first_raise {A : Type} (l1 l2 : list A) (x : A)
    (body : A → Result unit) (e : PyExc) :
  Forall (λ y, body y = Return tt) l1 → body x = Raise e →
  for_each (l1 ++ x :: l2) body = Raise e.
Proof.
  intros Hl1 Hx. induction Hl1 as [|y l1 Hy Hl1 IH]; cbn.
  - by rewrite Hx.
  - by rewrite Hy.
Qed.

Lemma for_each_raise {A : Type} (l : list A) (body : A → Result unit)
    (e : PyExc) :
  for_each l body = Raise e → ∃ x, x ∈ l ∧ body x = Raise e.
Proof.
  induction l as [|x l IH]; cbn; [done|].
  destruct (body x) as [[]|e'] eqn:Hx.
  - intros Hl. destruct (IH Hl) as (y & Hy & Hby).
    exists y. split; [by right | done].
  - intros [= ->]. exists x. split; [by left | done].
Qed.

Lemma for_each_drc {A : Type} (l : list A) (body : A → Result unit) :
  Forall (λ x, drc_outcome (body x)) l → drc_outcome (for_each l body).
Proof.
  intros Hall. destruct (for_each l body) as [[]|e] eqn:Hrun; [by left|].
  apply for_each_raise in Hrun as (x & Hx & Hbx).
  rewrite Forall_forall in Hall. specialize (Hall x Hx).
  rewrite Hbx in Hall. destruct Hall as [|Hmsg]; [done | by right].
Qed.

(** *** The scan shared by the first two rules *)

Lemma class_test_ok (h : Heap) (cls : PyClass) (msg : string) (s : ref) :
  class_test h cls msg s = Return tt ↔ is_instance h cls s.
Proof.
  unfold class_test, isinstance, get_module, is_instance.
  destruct (modules h !! s) as [o|]; cbn.
  - destruct (issubclass (mod_class o) cls) eqn:Hc; cbn.
    + split; [eauto | done].
    + split; [done | intros (o' & [= <-] & Ho'); congruence].
  - split; [done | by intros (o' & ? & _)].
Qed.

Lemma class_test_fails (h : Heap) (cls : PyClass) (msg : string) (s : ref)
    (o : GraphModuleObj) :
  modules h !! s = Some o → issubclass (mod_class o) cls = false →
  class_test h cls msg s = Raise (mkExc DRCError [PyStr msg]).
Proof.
  intros Hs Hc. unfold class_test, isinstance, get_module.
  rewrite Hs. cbn. by rewrite Hc.
Qed.

Lemma issubclass_GraphModule (c : PyClass) : issubclass c GraphModule = true.
Proof. induction c; cbn; try done. Qed.


Lemma class_test_drc (h : Heap) (cls : PyClass) (msg : string) (s : ref) :
  is_instance h GraphModule s → drc_outcome (class_test h cls msg s).
Proof.
  intros (o & Ho & _). unfold class_test, isinstance, get_module, drc_outcome.
  rewrite Ho. cbn. destruct (issubclass (mod_class o) cls); cbn; eauto.
Qed.

Lemma node_scan_ok h cls side msg l :
  node_scan h cls side msg l = Return tt
  ↔ Forall (λ n, ∃ nd, nodes h !! n = Some nd
                       ∧ Forall (is_instance h cls) (side nd)) l.
Proof.
  unfold node_scan. rewrite for_each_ok.
  apply Forall_proper; [|done]. intros n. unfold get_node.
  destruct (nodes h !! n) as [nd|]; cbn.
  - rewrite for_each_ok. split.
    + intros Hall. exists nd. split; [done|].
      eapply Forall_impl; [exact Hall|]. intros s Hs. cbn in Hs.
      by apply class_test_ok in Hs.
    + intros (nd' & [= <-] & Hall).
      eapply Forall_impl; [exact Hall|]. intros s Hs. cbn.
      by apply class_test_ok.
  - split; [done | by intros (nd' & ? & _)].
Qed.

Lemma node_scan_first h cls side msg ns1 ns2 ss1 ss2 n s nd o :
  Forall (λ n, ∃ nd, nodes h !! n = Some nd
                     ∧ Forall (is_instance h cls) (side nd)) ns1 →
  nodes h !! n = Some nd →
  side nd = ss1 ++ s :: ss2 →
  Forall (is_instance h cls) ss1 →
  modules h !! s = Some o →
  issubclass (mod_class o) cls = false →
  node_scan h cls side msg (ns1 ++ n :: ns2)
  = Raise (mkExc DRCError [PyStr (msg n s)]).
Proof.
  intros Hns1 Hn Hss Hss1 Hs Hcls. unfold node_scan.
  apply for_each_first_raise.
  - eapply Forall_impl; [exact Hns1|]. intros n' (nd' & Hn' & Hall).
    unfold get_node. rewrite Hn'. cbn. apply for_each_ok.
    eapply Forall_impl; [exact Hall|]. intros s' Hs'. cbn.
    by apply class_test_ok.
  - unfold get_node. rewrite Hn. cbn. rewrite Hss.
    apply for_each_first_raise.
    + eapply Forall_impl; [exact Hss1|]. intros s' Hs'. cbn.
      by apply class_test_ok.
    + by eapply class_test_fails.
Qed.

Lemma node_scan_drc h cls side msg l :
  Forall (λ n, ∃ nd, nodes h !! n = Some nd
                     ∧ Forall (is_instance h GraphModule) (side nd)) l →
  drc_outcome (node_scan h cls side msg l).
Proof.
  intros Hall. unfold node_scan. apply for_each_drc.
  eapply Forall_impl; [exact Hall|]. intros n (nd & Hn & Hside). cbn.
  unfold get_node. rewrite Hn. cbn. apply for_each_drc.
  eapply Forall_impl; [exact Hside|]. intros s Hs. cbn.
  by apply class_test_drc.
Qed.

Lemma output_rule_scan rn rm h graph g :
  modules h !! graph = Some g →
  output_nodes_have_neurons_as_source rn rm h graph
  = node_scan h GenericNeurons source_modules
      (not_a_neuron_message rn rm h) (output_nodes g).
Proof.
  intros Hg. unfold output_nodes_have_neurons_as_source, get_module.
  by rewrite Hg.
Qed.

Lemma input_rule_scan rn rm h graph g :
  modules h !! graph = Some g →
  first_module_is_a_weight rn rm h graph
  = node_scan h LinearWeights sink_modules
      (not_a_weight_message rn rm h) (input_nodes g).
Proof.
  intros Hg. unfold first_module_is_a_weight, get_module.
  by rewrite Hg.
Qed.

Lemma count_rule_ok h graph g :
  modules h !! graph = Some g →
  le_16_input_channels h graph = Return tt ↔ (length (input_nodes g) ≤ 16)%nat.
Proof.
  intros Hg. unfold le_16_input_channels, get_module. rewrite Hg. cbn.
  destruct (decide (16 < length (input_nodes g))%nat) as [Hgt|Hle].
  - split; [done|lia].
  - split; [lia|done].
Qed.

Lemma count_rule_drc h graph g :
  modules h !! graph = Some g → drc_outcome (le_16_input_channels h graph).
Proof.
  intros Hg. unfold le_16_input_channels, get_module, drc_outcome.
  rewrite Hg. cbn. destruct (decide _); eauto.
Qed.

(** *** The rules one by one *)

(** [le_16_input_channels] returns on a graph with at most 16 input
    nodes; on a graph with more it raises a [DRCError] whose message states
    the number of input nodes. *)
Theorem input_count_rule (h : Heap) (graph : ref) (g : GraphModuleObj) :
  modules h !! graph = Some g →
  ((length (input_nodes g) ≤ 16)%nat → le_16_input_channels h graph = Return tt)
  ∧ ((16 < length (input_nodes g))%nat →
     le_16_input_channels h graph
     = Raise (mkExc DRCError [PyStr (
         "Xylo only supports up to 16 input channels. The network requires "
         +:+ pretty (length (input_nodes g)) +:+ " input channels.")])).
Proof.
  intros Hg. unfold le_16_input_channels, get_module. rewrite Hg. cbn.
  destruct (decide (16 < length (input_nodes g))%nat) as [Hgt|Hle].
  - split; [lia | done].
  - split; [done | lia].
Qed.

(** X1. [output_nodes_have_neurons_as_source] returns exactly when every
    source module of every output node of the graph is an instance of
    [GenericNeurons]; output nodes without sources, and graphs without
    output nodes, pass. *)
Theorem output_rule_passes_iff (repr_node repr_module : Heap → ref → string)
    (h : Heap) (graph : ref) (g : GraphModuleObj) :
  modules h !! graph = Some g →
  (output_nodes_have_neurons_as_source repr_node repr_module h graph = Return tt
   ↔ outputs_from_neurons h g)
  ∧ (output_nodes g = [] →
     output_nodes_have_neurons_as_source repr_node repr_module h graph
     = Return tt).
Proof.
  intros Hg. rewrite (output_rule_scan _ _ _ _ g) by done. split.
  - apply node_scan_ok.
  - intros ->. done.
Qed.

(** X2. [first_module_is_a_weight] returns exactly when every sink module of
    every input node of the graph is an instance of [LinearWeights]. *)
Theorem input_rule_passes_iff (repr_node repr_module : Heap → ref → string)
    (h : Heap) (graph : ref) (g : GraphModuleObj) :
  modules h !! graph = Some g →
  (first_module_is_a_weight repr_node repr_module h graph = Return tt
   ↔ inputs_to_weights h g)
  ∧ (input_nodes g = [] →
     first_module_is_a_weight repr_node repr_module h graph = Return tt).
Proof.
  intros Hg. rewrite (input_rule_scan _ _ _ _ g) by done. split.
  - apply node_scan_ok.
  - intros ->. done.
Qed.

(** X3. The violation that [output_nodes_have_neurons_as_source] raises is
    about the first offender in iteration order: the first output node that
    has a source which is no neuron, and the first such source of that
    node. *)
Theorem output_rule_first_offender
    (repr_node repr_module : Heap → ref → string) (h : Heap) (graph : ref)
    (g : GraphModuleObj) (ns1 ns2 ss1 ss2 : list ref) (n s : ref)
    (nd : GraphNode) (o : GraphModuleObj) :
  modules h !! graph = Some g →
  output_nodes g = ns1 ++ n :: ns2 →
  Forall (node_sources_are h GenericNeurons) ns1 →
  nodes h !! n = Some nd →
  source_modules nd = ss1 ++ s :: ss2 →
  Forall (is_instance h GenericNeurons) ss1 →
  modules h !! s = Some o →
  issubclass (mod_class o) GenericNeurons = false →
  output_nodes_have_neurons_as_source repr_node repr_module h graph
  = Raise (mkExc DRCError [PyStr (
      "All network outputs must be directly from neurons." +:+ nl +:+
      "A network output node " +:+ repr_node h n +:+
      " has a source " +:+ repr_module h s +:+ " which is not a neuron.")]).
Proof.
  intros Hg Hns Hns1 Hn Hss Hss1 Hs Hcls.
  rewrite (output_rule_scan _ _ _ _ g), Hns by done.
  by apply (node_scan_first h GenericNeurons source_modules
              (not_a_neuron_message repr_node repr_module h)
              ns1 ns2 ss1 ss2 n s nd o).
Qed.

(** *** The runner *)

Lemma string_app_empty (s : string) : s +:+ "" = s.
Proof.
  induction s as [|c s IH]; [done|].
  change (String c (s +:+ "") = String c s). by rewrite IH.
Qed.

Lemma check_drc_app_aux graph l1 l2 w :
  check_drc graph (l1 ++ l2) w
  = (check_drc graph l1 ;;; check_drc graph l2) w.
Proof.
  revert w. induction l1 as [|dr l1 IH]; intros w; [done|].
  rewrite <- app_comm_cons.
  destruct (dr_check dr (heap w) graph) as [[]|e] eqn:Hr.
  - rewrite check_drc_step_pass by done. rewrite IH.
    unfold bind. by rewrite (check_drc_step_pass graph dr l1 w).
  - destruct (isinstance_exc e DRCError) eqn:He.
    + erewrite check_drc_step_drc by done.
      unfold bind. by erewrite check_drc_step_drc.
    + erewrite check_drc_step_other by done.
      unfold bind. by erewrite check_drc_step_other.
Qed.

Lemma check_drc_raise_inv graph l w e :
  (check_drc graph l w).1 = Raise e →
  ∃ dr e0,
    dr ∈ l ∧ dr_check dr (heap w) graph = Raise e0
    ∧ ((isinstance_exc e0 DRCError = true
        ∧ e = mkExc DRCError [PyStr (drc_message dr e0)])
       ∨ (isinstance_exc e0 DRCError = false ∧ e = e0)).
Proof.
  revert w. induction l as [|dr l IH]; intros w; [done|].
  destruct (dr_check dr (heap w) graph) as [[]|e0] eqn:Hr.
  - rewrite check_drc_step_pass by done. intros Hrun.
    destruct (IH _ Hrun) as (dr' & e0 & Hin & Hr' & Hcases).
    exists dr', e0. split; [by right | done].
  - destruct (isinstance_exc e0 DRCError) eqn:He.
    + erewrite check_drc_step_drc by done. cbn. intros [= <-].
      exists dr, e0. split; [by left|]. split; [done|]. by left.
    + erewrite check_drc_step_other by done. cbn. intros [= <-].
      exists dr, e0. split; [by left|]. split; [done|]. by right.
Qed.

(** X4. Checking the rules of [l1 ++ l2] is checking those of [l1] and,
    when that returns, those of [l2]: rule sets compose by concatenation. *)
Theorem check_drc_app (graph : ref) (l1 l2 : list DesignRule) (w : World) :
  check_drc graph (l1 ++ l2) w
  = (check_drc graph l1 ;;; check_drc graph l2) w
  ∧ ((check_drc graph (l1 ++ l2) w).1 = Return tt
     ↔ (check_drc graph l1 w).1 = Return tt
       ∧ (check_drc graph l2 w).1 = Return tt).
Proof.
  split; [apply check_drc_app_aux|].
  rewrite !check_drc_ok_iff. apply Forall_app.
Qed.

(** X5. Whatever [check_drc] raises comes from a rule of the list that
    raised on this graph: either the exception of that rule itself, when it
    is no [DRCError], or an exception of class [DRCError] exactly, even when
    the rule raised a subclass, with one argument, the message that names
    the rule. *)
Theorem check_drc_raises_from_rule (graph : ref) (design_rules : list DesignRule)
    (w : World) (e : PyExc) :
  (check_drc graph design_rules w).1 = Raise e →
  ∃ dr e0,
    dr ∈ design_rules ∧ dr_check dr (heap w) graph = Raise e0
    ∧ ((isinstance_exc e0 DRCError = true
        ∧ exc_class e = DRCError
        ∧ exc_args e = [PyStr (
            "Design rule " +:+ dr_name dr +:+ " triggered an error:" +:+ nl
            +:+ join_args (exc_args e0))])
       ∨ (isinstance_exc e0 DRCError = false ∧ e = e0)).
Proof.
  intros Hrun. destruct (check_drc_raise_inv _ _ _ _ Hrun)
    as (dr & e0 & Hin & Hr & [[He ->]|[He ->]]);
    exists dr, e0; split_and!; try done; [by left | by right].
Qed.

Lemma xylo_rules_drc rn rm h graph g :
  modules h !! graph = Some g → closed_graph h g →
  Forall (λ dr, drc_outcome (dr_check dr h graph)) (xylo_drc rn rm).
Proof.
  intros Hg [Hout Hin]. unfold xylo_drc.
  rewrite !Forall_cons, Forall_nil. cbn [dr_check]. split_and!; [| | |done].
  - rewrite (output_rule_scan _ _ _ _ g) by done. by apply node_scan_drc.
  - rewrite (input_rule_scan _ _ _ _ g) by done. by apply node_scan_drc.
  - by eapply count_rule_drc.
Qed.

(** X6. On a graph whose nodes and modules are all there, checking the
    Xylo rules returns or raises a [DRCError] whose message is that of one of
    the three rules behind its name: no other exception comes out. *)
Theorem check_xylo_drc_outcome (repr_node repr_module : Heap → ref → string)
    (graph : ref) (g : GraphModuleObj) (w : World) :
  modules (heap w) !! graph = Some g →
  closed_graph (heap w) g →
  (check_drc graph (xylo_drc repr_node repr_module) w).1 = Return tt
  ∨ ∃ dr msg,
      dr ∈ xylo_drc repr_node repr_module
      ∧ dr_check dr (heap w) graph = Raise (mkExc DRCError [PyStr msg])
      ∧ (check_drc graph (xylo_drc repr_node repr_module) w).1
        = Raise (mkExc DRCError [PyStr (
            "Design rule " +:+ dr_name dr +:+ " triggered an error:" +:+ nl
            +:+ msg)]).
Proof.
  intros Hg Hclosed.
  destruct (check_drc graph (xylo_drc repr_node repr_module) w).1
    as [[]|e] eqn:Hrun; [by left|]. right.
  destruct (check_drc_raise_inv _ _ _ _ Hrun)
    as (dr & e0 & Hin & Hr & Hcases).
  pose proof (xylo_rules_drc repr_node repr_module _ _ _ Hg Hclosed) as Hall.
  rewrite Forall_forall in Hall. specialize (Hall dr Hin).
  rewrite Hr in Hall. destruct Hall as [|[msg [= ->]]]; [done|].
  exists dr, msg. split_and!; [done..|].
  destruct Hcases as [[_ ->]|[He _]]; [|done].
  unfold drc_message. cbn. by rewrite string_app_empty.
Qed.

(** X7. Checking the Xylo rules returns exactly on the graphs whose output
    nodes are fed by neurons only, whose input nodes feed weights only, and
    which have at most 16 input nodes. *)
Theorem check_xylo_drc_passes_iff (repr_node repr_module : Heap → ref → string)
    (graph : ref) (g : GraphModuleObj) (w : World) :
  modules (heap w) !! graph = Some g →
  (check_drc graph (xylo_drc repr_node repr_module) w).1 = Return tt
  ↔ outputs_from_neurons (heap w) g
    ∧ inputs_to_weights (heap w) g
    ∧ (length (input_nodes g) ≤ 16)%nat.
Proof.
  intros Hg. rewrite check_drc_ok_iff. unfold xylo_drc, passes.
  rewrite !Forall_cons, Forall_nil. cbn [dr_check].
  rewrite (output_rule_scan _ _ _ _ g), (input_rule_scan _ _ _ _ g) by done.
  rewrite !node_scan_ok, (count_rule_ok _ _ g) by done.
  unfold outputs_from_neurons, inputs_to_weights, node_sources_are,
    node_sinks_are. tauto.
Qed.

(** *** Conversion *)






(** *** Rounding of the thresholds *)






(** *** The further properties on the example networks *)

Lemma input_count_rule_witness :
  le_16_input_channels net 0%nat = Return tt
  ∧ le_16_input_channels wide_net 0%nat
    = Raise (mkExc DRCError [PyStr
        "Xylo only supports up to 16 input channels. The network requires 17 input channels."]).
Proof.
  split.
  - apply (input_count_rule net 0%nat
             (mkModule GraphModule [1%nat] [2%nat] "net" PlainFields));
      [reflexivity | vm_compute; lia].
  - apply (input_count_rule wide_net 0%nat
             (mkModule GraphModule (replicate 17 1%nat) [2%nat] "net"
                PlainFields));
      [reflexivity | vm_compute; lia].
Defined.

Lemma output_rule_passes_iff_witness :
  outputs_from_neurons net
    (mkModule GraphModule [1%nat] [2%nat] "net" PlainFields).
Proof.
  apply (output_rule_passes_iff repr_node repr_module net 0%nat
           (mkModule GraphModule [1%nat] [2%nat] "net" PlainFields));
    [reflexivity | vm_compute; reflexivity].
Defined.

Lemma input_rule_passes_iff_witness :
  inputs_to_weights net
    (mkModule GraphModule [1%nat] [2%nat] "net" PlainFields).
Proof.
  apply (input_rule_passes_iff repr_node repr_module net 0%nat
           (mkModule GraphModule [1%nat] [2%nat] "net" PlainFields));
    [reflexivity | vm_compute; reflexivity].
Defined.

Lemma output_rule_first_offender_witness :
  output_nodes_have_neurons_as_source repr_node repr_module mixed_net 0%nat
  = Raise (mkExc DRCError [PyStr (
      "All network outputs must be directly from neurons." +:+ nl +:+
      "A network output node GraphNode 2 has a source LinearWeights weights which is not a neuron.")]).
Proof.
  apply (output_rule_first_offender repr_node repr_module mixed_net 0%nat
           (mkModule GraphModule [1%nat] [2%nat] "net" PlainFields)
           [] [] [5%nat] [] 2%nat 3%nat (mkNode [5%nat; 3%nat] [])
           (mkModule LinearWeights [1%nat] [4%nat] "weights" PlainFields)).
  - reflexivity.
  - reflexivity.
  - constructor.
  - reflexivity.
  - reflexivity.
  - constructor; [|constructor]. exists lif_module. split; reflexivity.
  - reflexivity.
  - reflexivity.
Defined.

Lemma check_drc_app_witness :
  (check_drc 0%nat ([param_check] ++ rules) (start net)).1
  = (check_drc 0%nat [param_check] (start net)).1
  ∧ (check_drc 0%nat (take 1 rules ++ drop 1 rules) (start net)).1 = Return tt.
Proof.
  split.
  - rewrite (proj1 (check_drc_app 0%nat [param_check] rules (start net))).
    reflexivity.
  - apply (proj2 (check_drc_app 0%nat (take 1 rules) (drop 1 rules) (start net))).
    split; vm_compute; reflexivity.
Defined.

Lemma check_drc_raises_from_rule_witness :
  ∃ dr e0,
    dr ∈ [strict_rule] ∧ dr_check dr net 0%nat = Raise e0
    ∧ ((isinstance_exc e0 DRCError = true
        ∧ exc_class (mkExc DRCError [PyStr (
            "Design rule strict_rule triggered an error:" +:+ nl +:+ "core 3")])
          = DRCError
        ∧ exc_args (mkExc DRCError [PyStr (
            "Design rule strict_rule triggered an error:" +:+ nl +:+ "core 3")])
          = [PyStr ("Design rule " +:+ dr_name dr +:+ " triggered an error:"
                    +:+ nl +:+ join_args (exc_args e0))])
       ∨ (isinstance_exc e0 DRCError = false
          ∧ mkExc DRCError [PyStr (
              "Design rule strict_rule triggered an error:" +:+ nl +:+ "core 3")]
            = e0)).
Proof.
  apply (check_drc_raises_from_rule 0%nat [strict_rule] (start net)).
  vm_compute. reflexivity.
Defined.

Lemma closed_bad_net :
  closed_graph bad_net (mkModule GraphModule [1%nat] [2%nat] "net" PlainFields).
Proof.
  split; (constructor; [|constructor]).
  - exists (mkNode [3%nat] []). split; [reflexivity|].
    constructor; [|constructor].
    exists (mkModule LinearWeights [1%nat] [4%nat] "weights" PlainFields).
    split; reflexivity.
  - exists (mkNode [] [3%nat]). split; [reflexivity|].
    constructor; [|constructor].
    exists (mkModule LinearWeights [1%nat] [4%nat] "weights" PlainFields).
    split; reflexivity.
Defined.

Lemma check_xylo_drc_outcome_witness :
  (check_drc 0%nat rules (start bad_net)).1 = Return tt
  ∨ ∃ dr msg,
      dr ∈ rules
      ∧ dr_check dr bad_net 0%nat = Raise (mkExc DRCError [PyStr msg])
      ∧ (check_drc 0%nat rules (start bad_net)).1
        = Raise (mkExc DRCError [PyStr (
            "Design rule " +:+ dr_name dr +:+ " triggered an error:" +:+ nl
            +:+ msg)]).
Proof.
  apply (check_xylo_drc_outcome repr_node repr_module 0%nat
           (mkModule GraphModule [1%nat] [2%nat] "net" PlainFields)
           (start bad_net)).
  - reflexivity.
  - exact closed_bad_net.
Defined.

Lemma check_xylo_drc_passes_iff_witness :
  outputs_from_neurons net
    (mkModule GraphModule [1%nat] [2%nat] "net" PlainFields)
  ∧ inputs_to_weights net
      (mkModule GraphModule [1%nat] [2%nat] "net" PlainFields)
  ∧ (length [1%nat] ≤ 16)%nat.
Proof.
  apply (check_xylo_drc_passes_iff repr_node repr_module 0%nat
           (mkModule GraphModule [1%nat] [2%nat] "net" PlainFields)
           (start net)); [reflexivity | vm_compute; reflexivity].
Defined.




End GraphExtra.

(** * Further properties of the functional state protocol *)

Module FunctionalExtra.
Import Functional UnitExamples Notebook FunctionalTheory.
Local Open Scope unit_scope.

Lemma attributes_set_attrs (b : Path → option Value) (t : UnitTree) :
  attributes (set_attrs b t)
  = map_imap (λ p v, Some (default v (b p))) (attributes t).
Proof.
  unfold attributes. rewrite !imap_default_union.
  rewrite !bundle_set_attrs; [done | by right; right | by right; left | by left].
Qed.

Lemma merge_over_apart (b s : Bundle) :
  (∀ p, p ∈ dom s → b !! p = None) → merge_over b s = s.
Proof.
  intros Hb. apply map_eq. intros p. rewrite lookup_merge_over.
  destruct (s !! p) as [v|] eqn:Hs; [|done]. cbn.
  rewrite Hb; [done|]. by apply elem_of_dom.
Qed.

Lemma merge_over_insert (s : Bundle) (p : Path) (v old : Value) :
  s !! p = Some old → merge_over (<[p := v]> s) s = <[p := v]> s.
Proof.
  intros Hp. apply merge_over_same.
  - rewrite dom_insert_L. apply elem_of_dom_2 in Hp.
    apply set_eq. intros q. rewrite elem_of_union, elem_of_singleton.
    split; [by right | by intros [->|]].
  - done.
Qed.

Lemma set_attributes_run (r : uref) (u : Unit) (b : Bundle) (w : World) :
  store w !! r = Some u → valid_bundle b (unit_tree u) →
  set_attributes r b w
  = (inr (fresh (dom (store w))),
     mkWorld (<[fresh (dom (store w))
                := mkU (unit_class u) (set_attrs (λ p, b !! p) (unit_tree u))]>
                (store w))
             (global_random_state w)).
Proof.
  intros Hr [Hdom Hty]. unfold set_attributes, fbind, read. rewrite Hr.
  by rewrite check_bundle_ok.
Qed.

Lemma fresh_ne (r : uref) (u : Unit) (w : World) :
  store w !! r = Some u → fresh (dom (store w)) ≠ r.
Proof.
  intros Hr Heq. pose proof (alloc_fresh w) as Hf. rewrite Heq in Hf. congruence.
Qed.

(** X11. The step of the notebook, [mod(input)] followed by
    [set_attributes(new_state)]: when the new state bundle covers the state
    entries of the Unit with values of the declared types, the Unit returned
    has the new state as its state and the parameters of the original, and
    the original keeps its state. *)
Theorem evolve_and_update_state (r : uref) (u : Unit) (input : Series)
    (w : World) :
  store w !! r = Some u →
  let res := dynamics (unit_class u) (unit_tree u) input in
  dom res.1.2 = dom (bundle u_state (unit_tree u)) →
  valid_bundle res.1.2 (unit_tree u) →
  disjoint_families (unit_tree u) →
  ∃ r' w',
    evolve_and_update r input w = (inr (r', res.1.1), w')
    ∧ r' ≠ r
    ∧ (state r' w').1 = inr res.1.2
    ∧ (parameters r' w').1 = (parameters r w).1
    ∧ (state r w').1 = (state r w).1.
Proof.
  intros Hr res Hdom Hvalid (Hps & Hpc & Hsc).
  set (r' := fresh (dom (store w))).
  assert (Hne : r' ≠ r) by (by eapply fresh_ne).
  eexists r', _. split_and!.
  - unfold evolve_and_update, fbind at 1. unfold evolve, fbind at 1, read, fret.
    rewrite Hr. fold res. unfold fbind.
    rewrite (set_attributes_run r u) by done. reflexivity.
  - done.
  - read_family. rewrite lookup_insert_eq. cbn [fst unit_tree]. f_equal.
    rewrite bundle_set_attrs by (right; by left).
    apply (merge_over_same res.1.2); [by symmetry | done].
  - read_family. rewrite lookup_insert_eq, Hr. cbn [fst unit_tree]. f_equal.
    rewrite bundle_set_attrs by (by left).
    apply merge_over_apart. intros p Hp. apply not_elem_of_dom.
    rewrite Hdom. intros Hin. exact (Hps p Hp Hin).
  - read_family. rewrite lookup_insert_ne, Hr by done. done.
Qed.

Lemma attributes_params_lookup (t : UnitTree) (p : Path) (v : Value) :
  bundle u_params t !! p = Some v → attributes t !! p = Some v.
Proof. intros Hp. unfold attributes. by do 2 apply lookup_union_Some_l. Qed.

Lemma valid_insert_parameter (t : UnitTree) (n : string) (v old : Value) :
  bundle u_params t !! [n] = Some old → type_of v = type_of old →
  valid_bundle (<[ [n] := v ]> (bundle u_params t)) t.
Proof.
  intros Hold Hty. split.
  - intros p. rewrite dom_insert_L, elem_of_union, elem_of_singleton.
    intros [->|Hp].
    + apply elem_of_dom. exists old. by apply attributes_params_lookup.
    + apply elem_of_dom in Hp as [x Hx]. apply elem_of_dom. exists x.
      by apply attributes_params_lookup.
  - intros p x Hx. destruct (decide (p = [n])) as [->|Hne].
    + rewrite lookup_insert_eq in Hx. injection Hx as <-.
      rewrite (attributes_params_lookup _ _ _ Hold). cbn. by rewrite Hty.
    + rewrite lookup_insert_ne in Hx by done.
      by rewrite (attributes_params_lookup _ _ _ Hx).
Qed.

Lemma get_attribute_lookup (r : uref) (u : Unit) (n : string) (v : Value)
    (w : World) :
  store w !! r = Some u → attributes (unit_tree u) !! [n] = Some v →
  (get_attribute r n w).1 = inr v.
Proof.
  intros Hr Hn. unfold get_attribute, fbind, read. by rewrite Hr, Hn.
Qed.

(** X12. Reading the parameters, replacing the entry [n] by a value of the
    same type and calling [set_attributes] gives a new Unit whose parameter
    [n] reads back as that value, whose other parameters and whose state are
    those of the original; the original is unchanged. *)
Theorem set_parameter_updates (r : uref) (u : Unit) (n : string)
    (v old : Value) (w : World) :
  store w !! r = Some u →
  bundle u_params (unit_tree u) !! [n] = Some old →
  type_of v = type_of old →
  disjoint_families (unit_tree u) →
  ∃ r' w',
    set_parameter r n v w = (inr r', w')
    ∧ r' ≠ r
    ∧ (parameters r' w').1 = inr (<[ [n] := v ]> (bundle u_params (unit_tree u)))
    ∧ (get_attribute r' n w').1 = inr v
    ∧ (state r' w').1 = (state r w).1
    ∧ (parameters r w').1 = (parameters r w).1.
Proof.
  intros Hr Hold Hty (Hps & Hpc & Hsc).
  set (t := unit_tree u) in *.
  set (b := <[ [n] := v ]> (bundle u_params t)).
  assert (Hvalid : valid_bundle b t) by (by eapply valid_insert_parameter).
  set (r' := fresh (dom (store w))).
  assert (Hne : r' ≠ r) by (by eapply fresh_ne).
  assert (Hp' : bundle u_params (set_attrs (λ p, b !! p) t) = b).
  { rewrite bundle_set_attrs by (by left). by eapply merge_over_insert. }
  eexists r', _. split_and!.
  - unfold set_parameter, fbind at 1. unfold parameters, fbind at 1, read, fret.
    rewrite Hr. fold t b. rewrite (set_attributes_run r u) by done. reflexivity.
  - done.
  - read_family. rewrite lookup_insert_eq. cbn [fst unit_tree]. by f_equal.
  - apply (get_attribute_lookup _
             (mkU (unit_class u) (set_attrs (λ p, b !! p) t)));
      [apply lookup_insert_eq|].
    apply attributes_params_lookup. cbn [unit_tree]. rewrite Hp'.
    apply lookup_insert_eq.
  - read_family. rewrite lookup_insert_eq, Hr. cbn [fst unit_tree]. f_equal.
    rewrite bundle_set_attrs by (right; by left).
    apply merge_over_apart. intros p Hp. apply not_elem_of_dom.
    intros Hin. unfold b in Hin.
    rewrite dom_insert_L, elem_of_union, elem_of_singleton in Hin.
    destruct Hin as [->|Hin].
    + apply (Hps [n]); [|done]. apply elem_of_dom. eauto.
    + by apply (Hps p).
  - read_family. rewrite lookup_insert_ne, Hr by done. done.
Qed.



Lemma merge_over_singleton (s : Bundle) (p : Path) (v old : Value) :
  s !! p = Some old → merge_over {[ p := v ]} s = <[ p := v ]> s.
Proof.
  intros Hp. apply map_eq. intros q. rewrite lookup_merge_over.
  destruct (decide (p = q)) as [<-|Hne].
  - by rewrite lookup_singleton_eq, lookup_insert_eq, Hp.
  - rewrite lookup_singleton_ne, lookup_insert_ne by done.
    by destruct (s !! q).
Qed.

Lemma valid_singleton_parameter (t : UnitTree) (n : string) (v old : Value) :
  bundle u_params t !! [n] = Some old → type_of v = type_of old →
  valid_bundle {[ [n] := v ]} t.
Proof.
  intros Hold Hty. split.
  - intros p. rewrite dom_singleton_L, elem_of_singleton. intros ->.
    apply elem_of_dom. exists old. by apply attributes_params_lookup.
  - intros p x Hx. apply lookup_singleton_Some in Hx as [<- <-].
    rewrite (attributes_params_lookup _ _ _ Hold). cbn. by rewrite Hty.
Qed.

(** X14. Direct assignment [mod.n = v] to a parameter works in place: no
    Unit is added to the store, [mod.n] then reads [v], the other parameters
    are unchanged, and the Unit stored is the one that
    [set_attributes(mod, {n: v})] returns. *)
Theorem assign_parameter_in_place (r : uref) (u : Unit) (n : string)
    (v old : Value) (w : World) :
  store w !! r = Some u →
  bundle u_params (unit_tree u) !! [n] = Some old →
  type_of v = type_of old →
  ∃ w',
    assign r n v w = (inr tt, w')
    ∧ dom (store w') = dom (store w)
    ∧ (get_attribute r n w').1 = inr v
    ∧ (parameters r w').1
      = inr (<[ [n] := v ]> (bundle u_params (unit_tree u)))
    ∧ ∃ r2 w2,
        set_attributes r {[ [n] := v ]} w = (inr r2, w2)
        ∧ store w2 !! r2 = store w' !! r.
Proof.
  intros Hr Hold Hty.
  set (t := unit_tree u) in *.
  set (b := ({[ [n] := v ]} : Bundle)).
  assert (Hvalid : valid_bundle b t) by (by eapply valid_singleton_parameter).
  assert (Hcheck : check_bundle b t = None).
  { destruct Hvalid. by apply check_bundle_ok. }
  assert (Hp' : bundle u_params (set_attrs (λ p, b !! p) t)
                = <[ [n] := v ]> (bundle u_params t)).
  { rewrite bundle_set_attrs by (by left). by eapply merge_over_singleton. }
  eexists. split_and!.
  - unfold assign, fbind, read. rewrite Hr. fold t b. rewrite Hcheck.
    reflexivity.
  - cbn [store]. rewrite dom_insert_L. apply elem_of_dom_2 in Hr.
    apply set_eq. intros q. rewrite elem_of_union, elem_of_singleton.
    split; [by intros [->|] | by right].
  - apply (get_attribute_lookup _
             (mkU (unit_class u) (set_attrs (λ p, b !! p) t)));
      [apply lookup_insert_eq|].
    apply attributes_params_lookup. cbn [unit_tree]. rewrite Hp'.
    apply lookup_insert_eq.
  - read_family. rewrite lookup_insert_eq. cbn [fst unit_tree]. by f_equal.
  - eexists _, _. split.
    + by apply (set_attributes_run r u).
    + cbn [store]. by rewrite !lookup_insert_eq.
Qed.

Lemma reset_parameters_tree_subs t :
  u_subs (reset_parameters_tree t)
  = map (λ '(k, su), (k, reset_parameters_tree su)) (u_subs t).
Proof. by destruct t. Qed.

Lemma reset_trees_commute t :
  reset_parameters_tree (reset_state_tree t)
  = reset_state_tree (reset_parameters_tree t).
Proof.
  induction t as [sh p s c ip ist subs IH] using UnitTree_nested_ind.
  cbn. f_equal. induction IH as [|[k su] l Hsu Hl IHl]; [done|].
  cbn in *. by rewrite Hsu, IHl.
Qed.

(** X15. [reset_state] followed by [reset_parameters] gives a Unit whose
    state and parameters are the declared initial values and whose simulation
    parameters are those of the original; the order of the two resets does
    not matter, and the original is unchanged. *)
Theorem reset_all_restores (r : uref) (u : Unit) (w : World) :
  store w !! r = Some u →
  ∃ r2 w2 u2,
    reset_all r w = (inr r2, w2)
    ∧ store w2 !! r2 = Some u2
    ∧ (state r2 w2).1 = inr (bundle u_init_state (unit_tree u))
    ∧ (parameters r2 w2).1 = inr (bundle u_init_params (unit_tree u))
    ∧ (simulation_parameters r2 w2).1 = (simulation_parameters r w).1
    ∧ unit_tree u2 = reset_state_tree (reset_parameters_tree (unit_tree u))
    ∧ store w2 !! r = Some u.
Proof.
  intros Hr.
  set (t := unit_tree u).
  set (u1 := mkU (unit_class u) (reset_state_tree t)).
  set (r1 := fresh (dom (store w))).
  set (w1 := mkWorld (<[r1 := u1]> (store w)) (global_random_state w)).
  set (u2 := mkU (unit_class u) (reset_parameters_tree (reset_state_tree t))).
  set (r2 := fresh (dom (store w1))).
  assert (Hne1 : r1 ≠ r) by (by eapply fresh_ne).
  assert (Hr1 : store w1 !! r1 = Some u1) by apply lookup_insert_eq.
  assert (Hr' : store w1 !! r = Some u).
  { cbn. by rewrite lookup_insert_ne. }
  assert (Hne2 : r2 ≠ r) by (by eapply fresh_ne).
  exists r2, (mkWorld (<[r2 := u2]> (store w1)) (global_random_state w1)), u2.
  split_and!.
  - unfold reset_all, fbind at 1. unfold reset_state, fbind, read, alloc.
    rewrite Hr. fold t u1 r1 w1. unfold reset_parameters, fbind, read, alloc.
    by rewrite Hr1.
  - apply lookup_insert_eq.
  - read_family. rewrite lookup_insert_eq. cbn [fst unit_tree u2]. f_equal.
    rewrite (bundle_map_tree reset_parameters_tree u_state u_state);
      [apply reset_state_tree_state | by intros [] |
       apply reset_parameters_tree_subs].
  - read_family. rewrite lookup_insert_eq. cbn [fst unit_tree u2]. f_equal.
    rewrite (bundle_map_tree reset_parameters_tree u_params u_init_params);
      [| by intros [] | apply reset_parameters_tree_subs].
    apply (bundle_map_tree reset_state_tree); [by intros []|].
    apply reset_state_tree_subs.
  - read_family. rewrite lookup_insert_eq, Hr. cbn [fst unit_tree u2]. f_equal.
    rewrite (bundle_map_tree reset_parameters_tree u_sim u_sim);
      [| by intros [] | apply reset_parameters_tree_subs].
    apply (bundle_map_tree reset_state_tree); [by intros []|].
    apply reset_state_tree_subs.
  - cbn. apply reset_trees_commute.
  - cbn [store]. by rewrite lookup_insert_ne.
Qed.

Lemma overlay_ext (b b' : Path → option Value) (m : gmap string Value) :
  (∀ p, b p = b' p) → overlay b m = overlay b' m.
Proof.
  intros Hb. apply map_eq. intros n. unfold overlay.
  rewrite !map_lookup_imap. destruct (m !! n); cbn; by rewrite ?Hb.
Qed.

Lemma overlay_overlay (b1 b2 : Path → option Value) (m : gmap string Value) :
  overlay b2 (overlay b1 m) = overlay (λ p, b2 p ∪ b1 p) m.
Proof.
  apply map_eq. intros n. unfold overlay. rewrite !map_lookup_imap.
  destruct (m !! n) as [v|]; cbn; [|done].
  by destruct (b2 [n]), (b1 [n]).
Qed.

Lemma set_attrs_ext (b b' : Path → option Value) (t : UnitTree) :
  (∀ p, b p = b' p) → set_attrs b t = set_attrs b' t.
Proof.
  revert b b'. induction t as [sh p s c ip ist subs IH] using UnitTree_nested_ind.
  intros b b' Hb. cbn. rewrite !(overlay_ext b b') by done. f_equal.
  induction IH as [|[k su] l Hsu Hl IHl]; [done|].
  cbn in *. rewrite IHl. f_equal. f_equal. apply Hsu. intros q. apply Hb.
Qed.

Lemma set_attrs_set_attrs (b1 b2 : Path → option Value) (t : UnitTree) :
  set_attrs b2 (set_attrs b1 t) = set_attrs (λ p, b2 p ∪ b1 p) t.
Proof.
  revert b1 b2.
  induction t as [sh p s c ip ist subs IH] using UnitTree_nested_ind.
  intros b1 b2. cbn. rewrite !overlay_overlay. f_equal.
  induction IH as [|[k su] l Hsu Hl IHl]; [done|].
  cbn in *. rewrite IHl. f_equal. f_equal. apply Hsu.
Qed.

Lemma valid_after_set_attrs (b1 b2 : Bundle) (t : UnitTree) :
  valid_bundle b1 t → valid_bundle b2 t →
  valid_bundle b2 (set_attrs (λ p, b1 !! p) t).
Proof.
  intros [Hd1 Ht1] [Hd2 Ht2].
  assert (Hlook : ∀ p, type_of <$> attributes (set_attrs (λ q, b1 !! q) t) !! p
                       = type_of <$> attributes t !! p).
  { intros p. rewrite attributes_set_attrs.
    rewrite (lookup_imap_default (λ q, b1 !! q)).
    destruct (attributes t !! p) as [x|] eqn:Hx; [|done]. cbn.
    destruct (b1 !! p) as [y|] eqn:Hy; [|done]. cbn.
    specialize (Ht1 p y Hy). cbn in Ht1. rewrite Hx in Ht1. cbn in Ht1.
    congruence. }
  split.
  - intros p Hp. apply Hd2 in Hp. apply elem_of_dom in Hp as [x Hx].
    apply elem_of_dom. specialize (Hlook p). rewrite Hx in Hlook.
    destruct (attributes (set_attrs _ t) !! p); [eauto | done].
  - intros p v Hv. rewrite Hlook. by apply Ht2.
Qed.

Lemma valid_union (b1 b2 : Bundle) (t : UnitTree) :
  valid_bundle b1 t → valid_bundle b2 t → valid_bundle (b2 ∪ b1) t.
Proof.
  intros [Hd1 Ht1] [Hd2 Ht2]. split.
  - rewrite dom_union_L. intros p Hp. apply elem_of_union in Hp as [Hp|Hp]; auto.
  - intros p v Hv. apply lookup_union_Some_raw in Hv as [Hv|[_ Hv]].
    + by apply Ht2.
    + by apply Ht1.
Qed.

(** X16. Two calls of [set_attributes] in a row give the Unit that one call
    with the union of the two bundles gives, the later bundle taking
    precedence on the names they share. *)
Theorem set_attributes_twice (r : uref) (u : Unit) (b1 b2 : Bundle) (w : World) :
  store w !! r = Some u →
  valid_bundle b1 (unit_tree u) →
  valid_bundle b2 (unit_tree u) →
  ∃ r1 w1 r2 w2 r3 w3,
    set_attributes r b1 w = (inr r1, w1)
    ∧ set_attributes r1 b2 w1 = (inr r2, w2)
    ∧ set_attributes r (b2 ∪ b1) w = (inr r3, w3)
    ∧ store w2 !! r2 = store w3 !! r3
    ∧ (state r2 w2).1 = inr (merge_over (b2 ∪ b1) (bundle u_state (unit_tree u))).
Proof.
  intros Hr Hv1 Hv2.
  set (t := unit_tree u) in *.
  set (u1 := mkU (unit_class u) (set_attrs (λ p, b1 !! p) t)).
  set (r1 := fresh (dom (store w))).
  set (w1 := mkWorld (<[r1 := u1]> (store w)) (global_random_state w)).
  assert (Hr1 : store w1 !! r1 = Some u1) by apply lookup_insert_eq.
  assert (Hv2' : valid_bundle b2 (unit_tree u1)) by (by apply valid_after_set_attrs).
  assert (Hv3 : valid_bundle (b2 ∪ b1) t) by (by apply valid_union).
  assert (Htree : set_attrs (λ p, b2 !! p) (set_attrs (λ p, b1 !! p) t)
                  = set_attrs (λ p, (b2 ∪ b1) !! p) t).
  { rewrite set_attrs_set_attrs. apply set_attrs_ext. intros p.
    by rewrite lookup_union. }
  eexists r1, w1, _, _, _, _. split_and!.
  - by apply (set_attributes_run r u).
  - by apply (set_attributes_run r1 u1).
  - by apply (set_attributes_run r u).
  - cbn [store]. rewrite !lookup_insert_eq. cbn [unit_class unit_tree u1].
    by rewrite Htree.
  - read_family. rewrite lookup_insert_eq. cbn [fst unit_class unit_tree u1].
    f_equal. rewrite Htree. rewrite bundle_set_attrs by (right; by left). done.
Qed.
(** *** The further properties on the example Units *)

Lemma rate_unit_disjoint : disjoint_families (unit_tree rate_unit).
Proof.
  unfold disjoint_families.
  split_and!; apply (bool_decide_unpack _); vm_compute; exact I.
Defined.

Lemma evolve_and_update_state_witness :
  ∃ r' w',
    evolve_and_update 0%nat input0 world0
    = (inr (r', (rate_dynamics (rate_tree [3%nat]) input0).1.1), w')
    ∧ r' ≠ 0%nat
    ∧ (state r' w').1 = inr (rate_dynamics (rate_tree [3%nat]) input0).1.2
    ∧ (parameters r' w').1 = (parameters 0%nat world0).1
    ∧ (state 0%nat w').1 = (state 0%nat world0).1.
Proof.
  apply (evolve_and_update_state 0%nat rate_unit input0 world0).
  - reflexivity.
  - apply (bool_decide_unpack _). vm_compute. exact I.
  - split; apply (bool_decide_unpack _); vm_compute; exact I.
  - exact rate_unit_disjoint.
Defined.

Lemma set_parameter_updates_witness :
  ∃ r' w',
    set_parameter 0%nat "tau" (Array [3 # 50; 3 # 50; 3 # 50]%Q) world0
    = (inr r', w')
    ∧ r' ≠ 0%nat
    ∧ (parameters r' w').1
      = inr (<[ ["tau"] := Array [3 # 50; 3 # 50; 3 # 50]%Q ]>
               (bundle u_params (unit_tree rate_unit)))
    ∧ (get_attribute r' "tau" w').1 = inr (Array [3 # 50; 3 # 50; 3 # 50]%Q)
    ∧ (state r' w').1 = (state 0%nat world0).1
    ∧ (parameters 0%nat w').1 = (parameters 0%nat world0).1.
Proof.
  apply (set_parameter_updates 0%nat rate_unit "tau"
           (Array [3 # 50; 3 # 50; 3 # 50]%Q)
           (Array [1 # 50; 1 # 50; 1 # 50]%Q) world0).
  - reflexivity.
  - vm_compute. reflexivity.
  - reflexivity.
  - exact rate_unit_disjoint.
Defined.


Lemma assign_parameter_in_place_witness :
  ∃ w',
    assign 0%nat "tau" (Array [3 # 50; 3 # 50; 3 # 50]%Q) world0 = (inr tt, w')
    ∧ dom (store w') = dom (store world0)
    ∧ (get_attribute 0%nat "tau" w').1 = inr (Array [3 # 50; 3 # 50; 3 # 50]%Q)
    ∧ (parameters 0%nat w').1
      = inr (<[ ["tau"] := Array [3 # 50; 3 # 50; 3 # 50]%Q ]>
               (bundle u_params (unit_tree rate_unit)))
    ∧ ∃ r2 w2,
        set_attributes 0%nat {[ ["tau"] := Array [3 # 50; 3 # 50; 3 # 50]%Q ]}
          world0 = (inr r2, w2)
        ∧ store w2 !! r2 = store w' !! 0%nat.
Proof.
  apply (assign_parameter_in_place 0%nat rate_unit "tau"
           (Array [3 # 50; 3 # 50; 3 # 50]%Q)
           (Array [1 # 50; 1 # 50; 1 # 50]%Q) world0).
  - reflexivity.
  - vm_compute. reflexivity.
  - reflexivity.
Defined.

Lemma reset_all_restores_witness :
  ∃ r2 w2 u2,
    reset_all 1%nat world0 = (inr r2, w2)
    ∧ store w2 !! r2 = Some u2
    ∧ (state r2 w2).1 = inr (bundle u_init_state (unit_tree stack_unit))
    ∧ (parameters r2 w2).1 = inr (bundle u_init_params (unit_tree stack_unit))
    ∧ (simulation_parameters r2 w2).1 = (simulation_parameters 1%nat world0).1
    ∧ unit_tree u2
      = reset_state_tree (reset_parameters_tree (unit_tree stack_unit))
    ∧ store w2 !! 1%nat = Some stack_unit.
Proof.
  apply (reset_all_restores 1%nat stack_unit world0). reflexivity.
Defined.

Lemma set_attributes_twice_witness :
  ∃ r1 w1 r2 w2 r3 w3,
    set_attributes 1%nat bundle0 world0 = (inr r1, w1)
    ∧ set_attributes r1 {[ ["0_rate"; "tau"] := Array [2; 2; 2]%Q ]} w1
      = (inr r2, w2)
    ∧ set_attributes 1%nat
        ({[ ["0_rate"; "tau"] := Array [2; 2; 2]%Q ]} ∪ bundle0) world0
      = (inr r3, w3)
    ∧ store w2 !! r2 = store w3 !! r3
    ∧ (state r2 w2).1
      = inr (merge_over ({[ ["0_rate"; "tau"] := Array [2; 2; 2]%Q ]} ∪ bundle0)
               (bundle u_state (unit_tree stack_unit))).
Proof.
  apply (set_attributes_twice 1%nat stack_unit bundle0
           {[ ["0_rate"; "tau"] := Array [2; 2; 2]%Q ]} world0).
  - reflexivity.
  - split; apply (bool_decide_unpack _); vm_compute; exact I.
  - split; apply (bool_decide_unpack _); vm_compute; exact I.
Defined.

End FunctionalExtra.
